(** * Geofeed validator ([.github/scripts/validate_geofeed.py])

    A shallow embedding of the validation script and of the parts of the
    Python standard library it calls ([str] methods, [re], [ipaddress] as
    shipped with CPython 3.11), followed by the properties of the validator.

    Conventions of the embedding:
    - a Python [str] is a [string]; each [ascii] stands for the code point of
      the same number (the code points below 256);
    - Python integers are [N] (addresses, prefix lengths) or [nat] (lengths,
      indices, line numbers);
    - code that may raise returns a [result]; exceptions carry their class
      and their message;
    - a formatted message is a list of [fragment]s: the literal parts of the
      format string and the interpolated values, in order;
    - the run is a function on an explicit [state]: the module-level flag
      [validation_failed] and the trace of effects ([open], [print]). *)

From Stdlib Require Import String Ascii List NArith Bool Arith Lia.
Import ListNotations.
Local Open Scope string_scope.
Local Open Scope list_scope.

(** ** IP addresses and networks as data *)

Inductive ip_version := V4 | V6.

(** [_BaseAddress] objects: [_version], [_ip] and, for IPv6 only,
    [_scope_id]. *)
Record BaseAddress := mk_address {
  addr_version : ip_version;
  _ip : N;
  _scope_id : option string
}.

(** [_BaseNetwork] objects after [__init__]. *)
Record BaseNetwork := mk_network {
  network_address : BaseAddress;
  netmask : BaseAddress;
  _prefixlen : N
}.

Definition version (n : BaseNetwork) : ip_version := addr_version (network_address n).

(** ** Messages and exceptions *)

(** One piece of a formatted string: a literal of the format string, or an
    interpolated value ([%s]/[{x}] of a [str], [%r]/[{x!r}] of a [str],
    [%d] of an [int], [%s] of an address or of a network, [%r] of a [bytes]
    of given length). *)
Inductive fragment :=
| Lit (s : string)
| Str (s : string)
| Repr (s : string)
| Int (n : N)
| Addr (a : BaseAddress)
| Net (n : BaseNetwork)
| ReprBytes (n : N) (byteslen : N).

Definition message := list fragment.

Inductive exc_class :=
| FileNotFoundError
| ValueError
| AddressValueError      (* class AddressValueError(ValueError) *)
| NetmaskValueError      (* class NetmaskValueError(ValueError) *)
| TypeError
| OtherException (name : string).

Record exception := mk_exception {
  exc_type : exc_class;
  exc_args : message       (* str(e) *)
}.

Definition exc_class_eqb (c d : exc_class) : bool :=
  match c, d with
  | FileNotFoundError, FileNotFoundError => true
  | ValueError, ValueError => true
  | AddressValueError, AddressValueError => true
  | NetmaskValueError, NetmaskValueError => true
  | TypeError, TypeError => true
  | OtherException a, OtherException b => String.eqb a b
  | _, _ => false
  end.

(** [issubclass c d] for the classes above. *)
Definition issubclass (c d : exc_class) : bool :=
  exc_class_eqb c d ||
  match c, d with
  | AddressValueError, ValueError => true
  | NetmaskValueError, ValueError => true
  | _, _ => false
  end.

Definition isinstance (e : exception) (c : exc_class) : bool :=
  issubclass (exc_type e) c.

(** ** Computations that may raise *)

Inductive result (A : Type) : Type :=
| Return (a : A)
| Raise (e : exception).
Arguments Return {A} a.
Arguments Raise {A} e.

Definition bind {A B} (c : result A) (k : A -> result B) : result B :=
  match c with
  | Return a => k a
  | Raise e => Raise e
  end.

Notation "x <- c ;; k" := (bind c (fun x => k))
  (at level 61, c at next level, right associativity).
Notation "' pat <- c ;; k" := (bind c (fun x => match x with pat => k end))
  (at level 61, pat pattern, c at next level, right associativity).

(** [try: c  except classes: h e]; an exception of another class goes on. *)
Definition try_except {A} (c : result A) (classes : list exc_class)
    (h : exception -> result A) : result A :=
  match c with
  | Return a => Return a
  | Raise e => if existsb (isinstance e) classes then h e else Raise e
  end.

Definition raise {A} (c : exc_class) (msg : message) : result A :=
  Raise (mk_exception c msg).

(** ** Python [str] methods *)

Module PyStr.

Definition code (c : ascii) : N := N_of_ascii c.

(** [str.isspace] on one character (White_Space or bidirectional type
    WS, B, S), for code points below 256. *)
Definition isspace (c : ascii) : bool :=
  let n := code c in
  (((9 <=? n) && (n <=? 13)) || ((28 <=? n) && (n <=? 32))
   || (n =? 133) || (n =? 160))%N.

Fixpoint lstrip (s : string) : string :=
  match s with
  | EmptyString => EmptyString
  | String c r => if isspace c then lstrip r else s
  end.

Fixpoint rstrip (s : string) : string :=
  match s with
  | EmptyString => EmptyString
  | String c r =>
      match rstrip r with
      | EmptyString => if isspace c then EmptyString else String c EmptyString
      | r' => String c r'
      end
  end.

(** [s.strip()] *)
Definition strip (s : string) : string := rstrip (lstrip s).

(** [s.startswith(p)] *)
Definition startswith (s p : string) : bool := String.prefix p s.

(** Truth value of a string: [if s], [not s]. *)
Definition truthy (s : string) : bool :=
  match s with EmptyString => false | _ => true end.

(** [c in s] for a one-character [c]. *)
Fixpoint contains (c : ascii) (s : string) : bool :=
  match s with
  | EmptyString => false
  | String d r => Ascii.eqb d c || contains c r
  end.

Fixpoint forallb (p : ascii -> bool) (s : string) : bool :=
  match s with
  | EmptyString => true
  | String c r => p c && forallb p r
  end.

(** [s.split(sep)] for a one-character [sep]. *)
Fixpoint split (sep : ascii) (s : string) : list string :=
  match s with
  | EmptyString => [EmptyString]
  | String c r =>
      if Ascii.eqb c sep then EmptyString :: split sep r
      else match split sep r with
           | [] => [String c EmptyString]
           | p :: ps => String c p :: ps
           end
  end.

(** [s.partition(sep)] for a one-character [sep]: before, whether the
    separator was found, after. *)
Fixpoint partition (sep : ascii) (s : string) : string * bool * string :=
  match s with
  | EmptyString => (EmptyString, false, EmptyString)
  | String c r =>
      if Ascii.eqb c sep then (EmptyString, true, r)
      else let '(b, found, a) := partition sep r in (String c b, found, a)
  end.

Definition isascii_char (c : ascii) : bool := (code c <? 128)%N.

(** [str.isdigit] on one character: 0-9 and the superscripts 2, 3, 1. *)
Definition isdigit_char (c : ascii) : bool :=
  let n := code c in
  (((48 <=? n) && (n <=? 57)) || (n =? 178) || (n =? 179) || (n =? 185))%N.

Definition isascii (s : string) : bool := forallb isascii_char s.

Definition isdigit (s : string) : bool := truthy s && forallb isdigit_char s.

(** Value of one digit in a base up to 16, if it is one. *)
Definition digit_value (c : ascii) : option N :=
  let n := code c in
  if ((48 <=? n) && (n <=? 57))%N then Some (n - 48)%N
  else if ((97 <=? n) && (n <=? 102))%N then Some (n - 87)%N
  else if ((65 <=? n) && (n <=? 70))%N then Some (n - 55)%N
  else None.

Fixpoint int_digits (base : N) (acc : N) (s : string) : option N :=
  match s with
  | EmptyString => Some acc
  | String c r =>
      match digit_value c with
      | Some d => if (d <? base)%N then int_digits base (acc * base + d)%N r
                  else None
      | None => None
      end
  end.

(** [sys.get_int_max_str_digits()], with its default value. *)
Definition int_max_str_digits : nat := 4300.

(** The bases the limit on the number of digits leaves alone: the powers
    of two. *)
Definition power_of_two_base (base : N) : bool :=
  ((base =? 2) || (base =? 4) || (base =? 8) || (base =? 16) || (base =? 32))%N.

(** [int(s, base)] on strings of digits only (no sign, blank or
    underscore); [None] stands for the [ValueError], which is also raised
    for more than [int_max_str_digits] digits, leading zeros counted,
    when the base is not a power of two. *)
Definition int (s : string) (base : N) : option N :=
  match s with
  | EmptyString => None
  | _ =>
      if negb (power_of_two_base base)
         && (int_max_str_digits <? String.length s)%nat
      then None
      else int_digits base 0%N s
  end.

Definition hex_digit (d : N) : ascii :=
  if (d <? 10)%N then ascii_of_N (48 + d) else ascii_of_N (87 + d).

(** ['%x' % n] for [n < 0x10000]. *)
Definition hex4 (n : N) : string :=
  let d3 := (n / 4096)%N in
  let d2 := ((n / 256) mod 16)%N in
  let d1 := ((n / 16) mod 16)%N in
  let d0 := (n mod 16)%N in
  if (0 <? d3)%N then
    String (hex_digit d3) (String (hex_digit d2) (String (hex_digit d1)
      (String (hex_digit d0) EmptyString)))
  else if (0 <? d2)%N then
    String (hex_digit d2) (String (hex_digit d1) (String (hex_digit d0) EmptyString))
  else if (0 <? d1)%N then
    String (hex_digit d1) (String (hex_digit d0) EmptyString)
  else String (hex_digit d0) EmptyString.

End PyStr.

(** ** The [ipaddress] module (CPython 3.11), for [str] arguments *)

Module ipaddress.
Import PyStr.

Definition IPV4LENGTH : N := 32.
Definition IPV6LENGTH : N := 128.

Definition _max_prefixlen (v : ip_version) : N :=
  match v with V4 => IPV4LENGTH | V6 => IPV6LENGTH end.

Definition _ALL_ONES (v : ip_version) : N := (2 ^ _max_prefixlen v - 1)%N.

Definition version_number (v : ip_version) : N :=
  match v with V4 => 4%N | V6 => 6%N end.

Definition dquote : string := String (ascii_of_nat 34) EmptyString.

(** The constructor of an address from an [int]: [_check_int_address]. *)
Definition address_of_int (v : ip_version) (n : N) : result BaseAddress :=
  if (_ALL_ONES v <? n)%N then
    raise AddressValueError
      [Int n; Lit " (>= 2**"; Int (_max_prefixlen v);
       Lit ") is not permitted as an IPv"; Int (version_number v); Lit " address"]
  else Return (mk_address v n None).

Definition _split_optional_netmask (address : string) : result (list string) :=
  let addr := split "/" address in
  if (2 <? length addr)%nat then
    raise AddressValueError [Lit "Only one '/' permitted in "; Repr address]
  else Return addr.

(** The second component of [_split_addr_prefix]: the text after the
    slash, or the [int] [_max_prefixlen] when there is no slash. *)
Inductive mask_arg := MaskInt (n : N) | MaskStr (s : string).

Definition _split_addr_prefix (v : ip_version) (address : string)
    : result (string * mask_arg) :=
  address <- _split_optional_netmask address ;;
  match address with
  | [] => raise (OtherException "IndexError") [Lit "list index out of range"]
  | [a] => Return (a, MaskInt (_max_prefixlen v))
  | a :: m :: _ => Return (a, MaskStr m)
  end.

Definition _ip_int_from_prefix (v : ip_version) (prefixlen : N) : N :=
  N.lxor (_ALL_ONES v) (N.shiftr (_ALL_ONES v) prefixlen).

(** [(~number & (number-1)).bit_length()] is written with [N.ldiff]. *)
Definition _count_righthand_zero_bits (number bits : N) : N :=
  if (number =? 0)%N then bits
  else N.min bits (N.size (N.ldiff (number - 1) number)).

Definition _prefix_from_ip_int (v : ip_version) (ip_int : N) : result N :=
  let trailing_zeroes := _count_righthand_zero_bits ip_int (_max_prefixlen v) in
  let prefixlen := (_max_prefixlen v - trailing_zeroes)%N in
  let leading_ones := N.shiftr ip_int trailing_zeroes in
  let all_ones := (N.shiftl 1 prefixlen - 1)%N in
  if negb (leading_ones =? all_ones)%N then
    raise ValueError
      [Lit "Netmask pattern "; ReprBytes ip_int (_max_prefixlen v / 8);
       Lit " mixes zeroes & ones"]
  else Return prefixlen.

Definition _report_invalid_netmask {A} (netmask : fragment) : result A :=
  raise NetmaskValueError [netmask; Lit " is not a valid netmask"].

Definition _prefix_from_prefix_string (v : ip_version) (prefixlen_str : string)
    : result N :=
  if negb (isascii prefixlen_str && isdigit prefixlen_str) then
    _report_invalid_netmask (Repr prefixlen_str)
  else
    match int prefixlen_str 10 with
    | None => _report_invalid_netmask (Repr prefixlen_str)
    | Some prefixlen =>
        if negb (prefixlen <=? _max_prefixlen v)%N then
          _report_invalid_netmask (Repr prefixlen_str)
        else Return prefixlen
    end.

(** *** IPv4 *)

Definition _parse_octet (octet_str : string) : result N :=
  if negb (truthy octet_str) then
    raise ValueError [Lit "Empty octet not permitted"]
  else if negb (isascii octet_str && isdigit octet_str) then
    raise ValueError [Lit "Only decimal digits permitted in "; Repr octet_str]
  else if (3 <? String.length octet_str)%nat then
    raise ValueError [Lit "At most 3 characters permitted in "; Repr octet_str]
  else if negb (String.eqb octet_str "0") && startswith octet_str "0" then
    raise ValueError [Lit "Leading zeros are not permitted in "; Repr octet_str]
  else
    match int octet_str 10 with
    | None =>
        raise ValueError
          [Lit "invalid literal for int() with base 10: "; Repr octet_str]
    | Some octet_int =>
        if (255 <? octet_int)%N then
          raise ValueError [Lit "Octet "; Int octet_int; Lit " (> 255) not permitted"]
        else Return octet_int
    end.

(** [int.from_bytes(map(cls._parse_octet, octets), 'big')] *)
Fixpoint from_octets (octets : list string) (acc : N) : result N :=
  match octets with
  | [] => Return acc
  | o :: os => b <- _parse_octet o ;; from_octets os (acc * 256 + b)%N
  end.

Definition _ip_int_from_string_v4 (ip_str : string) : result N :=
  if negb (truthy ip_str) then
    raise AddressValueError [Lit "Address cannot be empty"]
  else
    let octets := split "." ip_str in
    if negb (length octets =? 4)%nat then
      raise AddressValueError [Lit "Expected 4 octets in "; Repr ip_str]
    else
      try_except (from_octets octets 0%N) [ValueError]
        (fun exc => raise AddressValueError
                      (exc_args exc ++ [Lit " in "; Repr ip_str])).

Definition IPv4Address (address : string) : result BaseAddress :=
  if contains "/" address then
    raise AddressValueError [Lit "Unexpected '/' in "; Repr address]
  else
    ip <- _ip_int_from_string_v4 address ;;
    Return (mk_address V4 ip None).

(** [_prefix_from_ip_string], which only the IPv4 classes call. *)
Definition _prefix_from_ip_string (ip_str : string) : result N :=
  ip_int <- try_except (_ip_int_from_string_v4 ip_str) [AddressValueError]
              (fun _ => _report_invalid_netmask (Repr ip_str)) ;;
  try_except (_prefix_from_ip_int V4 ip_int) [ValueError]
    (fun _ =>
       let ip_int := N.lxor ip_int (_ALL_ONES V4) in
       try_except (_prefix_from_ip_int V4 ip_int) [ValueError]
         (fun _ => _report_invalid_netmask (Repr ip_str))).

(** [_make_netmask]; the cache [_netmask_cache] only memoises. *)
Definition _make_netmask_v4 (arg : mask_arg) : result (BaseAddress * N) :=
  prefixlen <-
    match arg with
    | MaskInt prefixlen =>
        if negb (prefixlen <=? _max_prefixlen V4)%N then
          _report_invalid_netmask (Int prefixlen)
        else Return prefixlen
    | MaskStr arg =>
        try_except (_prefix_from_prefix_string V4 arg) [NetmaskValueError]
          (fun _ => _prefix_from_ip_string arg)
    end ;;
  netmask <- address_of_int V4 (_ip_int_from_prefix V4 prefixlen) ;;
  Return (netmask, prefixlen).

Definition IPv4Network (address : string) (strict : bool) : result BaseNetwork :=
  '(addr, mask) <- _split_addr_prefix V4 address ;;
  network_address <- IPv4Address addr ;;
  '(netmask, prefixlen) <- _make_netmask_v4 mask ;;
  let packed := _ip network_address in
  if negb (N.land packed (_ip netmask) =? packed)%N then
    if strict then
      raise ValueError
        [Net (mk_network network_address netmask prefixlen);
         Lit " has host bits set"]
    else
      network_address <- address_of_int V4 (N.land packed (_ip netmask)) ;;
      Return (mk_network network_address netmask prefixlen)
  else Return (mk_network network_address netmask prefixlen).

(** *** IPv6 *)

Definition _HEXTET_COUNT : nat := 8.

(** [cls._HEX_DIGITS.issuperset(s)] *)
Definition is_hex_digit (c : ascii) : bool :=
  let n := code c in
  (((48 <=? n) && (n <=? 57)) || ((65 <=? n) && (n <=? 70))
   || ((97 <=? n) && (n <=? 102)))%N.

Definition _parse_hextet (hextet_str : string) : result N :=
  if negb (forallb is_hex_digit hextet_str) then
    raise ValueError [Lit "Only hex digits permitted in "; Repr hextet_str]
  else if (4 <? String.length hextet_str)%nat then
    raise ValueError [Lit "At most 4 characters permitted in "; Repr hextet_str]
  else
    match int hextet_str 16 with
    | None =>
        raise ValueError
          [Lit "invalid literal for int() with base 16: "; Repr hextet_str]
    | Some n => Return n
    end.

(** The loop [for i in range(1, len(parts) - 1)] that looks for the
    empty part of a [::]; [inner] is [parts[i:len(parts)-1]]. *)
Fixpoint find_skip_index (ip_str : string) (inner : list string) (i : nat)
    (skip_index : option nat) : result (option nat) :=
  match inner with
  | [] => Return skip_index
  | p :: rest =>
      if negb (truthy p) then
        match skip_index with
        | Some _ =>
            raise AddressValueError [Lit "At most one '::' permitted in "; Repr ip_str]
        | None => find_skip_index ip_str rest (S i) (Some i)
        end
      else find_skip_index ip_str rest (S i) skip_index
  end.

(** The two loops [ip_int <<= 16; ip_int |= cls._parse_hextet(parts[i])]. *)
Fixpoint parse_hextets (ps : list string) (ip_int : N) : result N :=
  match ps with
  | [] => Return ip_int
  | p :: rest =>
      h <- _parse_hextet p ;;
      parse_hextets rest (N.lor (N.shiftl ip_int 16) h)
  end.

Definition leading_colon {A} (ip_str : string) : result A :=
  raise AddressValueError
    [Lit "Leading ':' only permitted as part of '::' in "; Repr ip_str].

Definition trailing_colon {A} (ip_str : string) : result A :=
  raise AddressValueError
    [Lit "Trailing ':' only permitted as part of '::' in "; Repr ip_str].

(** [parts_hi], [parts_lo] and [parts_skipped].  [parts_skipped < 1] is
    tested before the subtraction, which is truncated on [nat]. *)
Definition split_parts (ip_str : string) (parts : list string)
    (skip_index : option nat) : result (nat * nat * nat) :=
  match skip_index with
  | Some skip_index =>
      let parts_hi := skip_index in
      let parts_lo := length parts - skip_index - 1 in
      parts_hi <-
        (if negb (truthy (hd EmptyString parts)) then
           let parts_hi := parts_hi - 1 in
           if negb (parts_hi =? 0)%nat then leading_colon ip_str
           else Return parts_hi
         else Return parts_hi) ;;
      parts_lo <-
        (if negb (truthy (last parts EmptyString)) then
           let parts_lo := parts_lo - 1 in
           if negb (parts_lo =? 0)%nat then trailing_colon ip_str
           else Return parts_lo
         else Return parts_lo) ;;
      if (_HEXTET_COUNT <? parts_hi + parts_lo + 1)%nat then
        raise AddressValueError
          [Lit "Expected at most "; Int (N.of_nat (_HEXTET_COUNT - 1));
           Lit " other parts with '::' in "; Repr ip_str]
      else Return (parts_hi, parts_lo, _HEXTET_COUNT - (parts_hi + parts_lo))
  | None =>
      if negb (length parts =? _HEXTET_COUNT)%nat then
        raise AddressValueError
          [Lit "Exactly "; Int (N.of_nat _HEXTET_COUNT);
           Lit " parts expected without '::' in "; Repr ip_str]
      else if negb (truthy (hd EmptyString parts)) then leading_colon ip_str
      else if negb (truthy (last parts EmptyString)) then trailing_colon ip_str
      else Return (length parts, 0, 0)
  end.

Definition _ip_int_from_string_v6 (ip_str : string) : result N :=
  if negb (truthy ip_str) then
    raise AddressValueError [Lit "Address cannot be empty"]
  else
    let parts := split ":" ip_str in
    let _min_parts := 3 in
    if (length parts <? _min_parts)%nat then
      raise AddressValueError
        [Lit "At least "; Int (N.of_nat _min_parts); Lit " parts expected in ";
         Repr ip_str]
    else
      parts <-
        (if contains "." (last parts EmptyString) then
           ipv4 <- try_except (IPv4Address (last parts EmptyString))
                     [AddressValueError]
                     (fun exc => raise AddressValueError
                                   (exc_args exc ++ [Lit " in "; Repr ip_str])) ;;
           let ipv4_int := _ip ipv4 in
           Return (removelast parts
                     ++ [hex4 (N.land (N.shiftr ipv4_int 16) 65535);
                         hex4 (N.land ipv4_int 65535)])
         else Return parts) ;;
      let _max_parts := _HEXTET_COUNT + 1 in
      if (_max_parts <? length parts)%nat then
        raise AddressValueError
          [Lit "At most "; Int (N.of_nat (_max_parts - 1));
           Lit " colons permitted in "; Repr ip_str]
      else
        skip_index <- find_skip_index ip_str (removelast (tl parts)) 1 None ;;
        '(parts_hi, parts_lo, parts_skipped) <- split_parts ip_str parts skip_index ;;
        try_except
          (ip_int <- parse_hextets (firstn parts_hi parts) 0%N ;;
           let ip_int := N.shiftl ip_int (16 * N.of_nat parts_skipped) in
           parse_hextets (skipn (length parts - parts_lo) parts) ip_int)
          [ValueError]
          (fun exc => raise AddressValueError
                        (exc_args exc ++ [Lit " in "; Repr ip_str])).

Definition _split_scope_id (ip_str : string) : result (string * option string) :=
  let '(addr, sep, scope_id) := partition "%" ip_str in
  if negb sep then Return (addr, None)
  else if negb (truthy scope_id) || contains "%" scope_id then
    raise AddressValueError
      [Lit ("Invalid IPv6 address: " ++ dquote); Repr ip_str; Lit dquote]
  else Return (addr, Some scope_id).

Definition IPv6Address (address : string) : result BaseAddress :=
  if contains "/" address then
    raise AddressValueError [Lit "Unexpected '/' in "; Repr address]
  else
    '(addr_str, scope_id) <- _split_scope_id address ;;
    ip <- _ip_int_from_string_v6 addr_str ;;
    Return (mk_address V6 ip scope_id).

Definition _make_netmask_v6 (arg : mask_arg) : result (BaseAddress * N) :=
  prefixlen <-
    match arg with
    | MaskInt prefixlen =>
        if negb (prefixlen <=? _max_prefixlen V6)%N then
          _report_invalid_netmask (Int prefixlen)
        else Return prefixlen
    | MaskStr arg => _prefix_from_prefix_string V6 arg
    end ;;
  netmask <- address_of_int V6 (_ip_int_from_prefix V6 prefixlen) ;;
  Return (netmask, prefixlen).

Definition IPv6Network (address : string) (strict : bool) : result BaseNetwork :=
  '(addr, mask) <- _split_addr_prefix V6 address ;;
  network_address <- IPv6Address addr ;;
  '(netmask, prefixlen) <- _make_netmask_v6 mask ;;
  let packed := _ip network_address in
  if negb (N.land packed (_ip netmask) =? packed)%N then
    if strict then
      raise ValueError
        [Net (mk_network network_address netmask prefixlen);
         Lit " has host bits set"]
    else
      network_address <- address_of_int V6 (N.land packed (_ip netmask)) ;;
      Return (mk_network network_address netmask prefixlen)
  else Return (mk_network network_address netmask prefixlen).

(** *** [ip_network] *)

Definition ip_network (address : string) (strict : bool) : result BaseNetwork :=
  try_except (IPv4Network address strict) [AddressValueError; NetmaskValueError]
    (fun _ =>
       try_except (IPv6Network address strict) [AddressValueError; NetmaskValueError]
         (fun _ =>
            raise ValueError
              [Repr address; Lit " does not appear to be an IPv4 or IPv6 network"])).

(** *** Comparison of addresses and [subnet_of] *)

Definition version_eqb (v w : ip_version) : bool :=
  match v, w with V4, V4 | V6, V6 => true | _, _ => false end.

Definition scope_eqb (s t : option string) : bool :=
  match s, t with
  | None, None => true
  | Some a, Some b => String.eqb a b
  | _, _ => false
  end.

(** [_BaseAddress.__lt__] *)
Definition address_lt (self other : BaseAddress) : result bool :=
  if negb (version_eqb (addr_version self) (addr_version other)) then
    raise TypeError [Addr self; Lit " and "; Addr other;
                     Lit " are not of the same version"]
  else if negb (_ip self =? _ip other)%N then Return (_ip self <? _ip other)%N
  else Return false.

(** [__eq__]: [_BaseAddress.__eq__], which [IPv6Address.__eq__] extends
    with the scope. *)
Definition address_eq (self other : BaseAddress) : bool :=
  let address_equal :=
    (_ip self =? _ip other)%N && version_eqb (addr_version self) (addr_version other) in
  match addr_version self with
  | V4 => address_equal
  | V6 => if negb address_equal then false
          else scope_eqb (_scope_id self) (_scope_id other)
  end.

(** [functools.total_ordering]: [_le_from_lt] and [_ge_from_lt]. *)
Definition address_le (self other : BaseAddress) : result bool :=
  op_result <- address_lt self other ;;
  Return (op_result || address_eq self other).

Definition address_ge (self other : BaseAddress) : result bool :=
  op_result <- address_lt self other ;;
  Return (negb op_result).

Definition hostmask (self : BaseNetwork) : result BaseAddress :=
  address_of_int (version self) (N.lxor (_ip (netmask self)) (_ALL_ONES (version self))).

Definition broadcast_address (self : BaseNetwork) : result BaseAddress :=
  h <- hostmask self ;;
  address_of_int (version self) (N.lor (_ip (network_address self)) (_ip h)).

Definition _is_subnet_of (a b : BaseNetwork) : result bool :=
  if negb (version_eqb (version a) (version b)) then
    raise TypeError [Net a; Lit " and "; Net b; Lit " are not of the same version"]
  else
    lower <- address_le (network_address b) (network_address a) ;;
    if lower then
      bb <- broadcast_address b ;;
      ba <- broadcast_address a ;;
      address_ge bb ba
    else Return false.

Definition subnet_of (self other : BaseNetwork) : result bool :=
  _is_subnet_of self other.

End ipaddress.

(** ** The [re] module, for the two patterns of the script *)

Module re.

(** The pieces the patterns are made of. *)
Inductive item :=
| Bol                                        (* ^ *)
| Eol                                        (* $ *)
| Chr (c : ascii)                            (* one literal character *)
| Class (p : ascii -> bool) (lo hi : nat).   (* [...]{lo,hi} *)

Definition pattern := list item.

Definition newline : string := String (ascii_of_nat 10) EmptyString.

(** [$] matches at the end of the string and just before a newline that
    ends the string. *)
Definition at_end (s : string) : bool :=
  negb (PyStr.truthy s) || String.eqb s newline.

(** Does [pat] match a prefix of [s]?  [at_start] tells whether [s] is
    still the whole subject. *)
Fixpoint match_here (pat : pattern) (at_start : bool) (s : string) : bool :=
  match pat with
  | [] => true
  | Bol :: rest => at_start && match_here rest at_start s
  | Eol :: rest => at_end s && match_here rest at_start s
  | Chr c :: rest =>
      match s with
      | String d r => Ascii.eqb d c && match_here rest false r
      | EmptyString => false
      end
  | Class p lo hi :: rest =>
      (fix rep (k : nat) (at_start : bool) (s : string) {struct s} : bool :=
         match s with
         | String c r => (k <? hi)%nat && p c && rep (S k) false r
         | EmptyString => false
         end
         || ((lo <=? k)%nat && match_here rest at_start s)) 0 at_start s
  end.

(** Truth value of [pat.match(s)]. *)
Definition match_ (pat : pattern) (s : string) : bool := match_here pat true s.

Definition in_range (lo hi : N) (c : ascii) : bool :=
  ((lo <=? PyStr.code c) && (PyStr.code c <=? hi))%N.

Definition upper : ascii -> bool := in_range 65 90.                 (* [A-Z] *)
Definition alnum (c : ascii) : bool :=                              (* [A-Za-z0-9] *)
  in_range 65 90 c || in_range 97 122 c || in_range 48 57 c.

End re.

(** ** The script *)

Import PyStr.

(** [SUPERNET = ipaddress.ip_network('2a0f:1cc0::/29')] *)
Definition SUPERNET : BaseNetwork :=
  Eval cbv in
    match ipaddress.ip_network "2a0f:1cc0::/29" true with
    | Return n => n
    | Raise _ => mk_network (mk_address V6 0 None) (mk_address V6 0 None) 0
    end.

(** [re.compile(r'^[A-Z]{2}$')] *)
Definition COUNTRY_CODE_REGEX : re.pattern :=
  [re.Bol; re.Class re.upper 2 2; re.Eol].

(** [re.compile(r'^[A-Z]{2}-[A-Za-z0-9]{1,3}$')] *)
Definition REGION_CODE_REGEX : re.pattern :=
  [re.Bol; re.Class re.upper 2 2; re.Chr "-"; re.Class re.alnum 1 3; re.Eol].

(** *** State and effects *)

Inductive event :=
| EvOpen (filepath : string)       (* open(filepath, 'r', encoding='utf-8') *)
| EvPrint (line : message).        (* print(line) *)

Record state := mk_state {
  validation_failed : bool;
  trace : list event
}.

Definition initial_state : state := mk_state false [].

Definition print (line : message) (st : state) : state :=
  mk_state (validation_failed st) (trace st ++ [EvPrint line]).

Definition record_open (filepath : string) (st : state) : state :=
  mk_state (validation_failed st) (trace st ++ [EvOpen filepath]).

(** [validation_failed = True] *)
Definition set_failed (st : state) : state := mk_state true (trace st).

(** What [csv.reader(f)] yields: rows, then the end or an exception. *)
Inductive reader :=
| StopIteration
| Next (row : list string) (rest : reader)
| ReaderRaise (e : exception).

(** What [open] does for a path. *)
Inductive open_result :=
| OpenRaise (e : exception)
| OpenOk (rows : reader).

Definition filesystem := string -> open_result.

(** The state when a block ends, and the exception if it ended by one. *)
Inductive outcome :=
| Completed (st : state)
| Raised (e : exception) (st : state).

(** *** The printed lines *)

Definition location (level filepath : string) (linenum : nat) : message :=
  [Lit level; Str filepath; Lit ":"; Int (N.of_nat linenum)].

Definition msg_nothing_to_check : message :=
  [Lit "No relevant .csv files changed in 'client_feeds/'. Skipping."].

Definition msg_header (filepath : string) : message :=
  [Lit "--- Validating file: "; Str filepath; Lit " ---"].

Definition msg_column_count (filepath : string) (linenum n : nat) : message :=
  location "  ERROR: " filepath linenum
    ++ [Lit ": Invalid column count ("; Int (N.of_nat n); Lit "). Must be 2, 3, or 4."].

Definition msg_invalid_prefix (filepath : string) (linenum : nat)
    (ip_prefix : string) (e : exception) : message :=
  location "  ERROR: " filepath linenum
    ++ [Lit ": Invalid IP prefix '"; Str ip_prefix; Lit "'. Details: "] ++ exc_args e.

Definition msg_not_within (filepath : string) (linenum : nat) (ip_prefix : string)
    : message :=
  location "  ERROR: " filepath linenum
    ++ [Lit ": IP prefix '"; Str ip_prefix; Lit "' is NOT within the allowed range ";
        Net SUPERNET; Lit "."].

Definition msg_country_code (filepath : string) (linenum : nat) (country_code : string)
    : message :=
  location "  ERROR: " filepath linenum
    ++ [Lit ": Invalid country code format '"; Str country_code;
        Lit "'. Must be 2 uppercase letters (e.g., US, JP)."].

Definition msg_region_code (filepath : string) (linenum : nat) (region_code : string)
    : message :=
  location "  ERROR: " filepath linenum
    ++ [Lit ": Invalid region code format '"; Str region_code;
        Lit "'. Must match ISO 3166-2 (e.g., US-CA, JP-13)."].

Definition msg_city_long (filepath : string) (linenum : nat) (city_name : string)
    : message :=
  location "  WARN: " filepath linenum
    ++ [Lit ": City name '"; Str city_name; Lit "' seems very long. Is this correct?"].

Definition msg_city_without_region (filepath : string) (linenum : nat) (city : string)
    : message :=
  location "  WARN: " filepath linenum
    ++ [Lit ": City '"; Str city;
        Lit "' is specified, but region (column 3) is empty. This is discouraged by RFC 8805/9092."].

Definition msg_not_found (filepath : string) : message :=
  [Lit "  INFO: File "; Str filepath; Lit " not found (likely deleted in this PR). Skipping."].

Definition msg_fatal (filepath : string) (e : exception) : message :=
  [Lit "  FATAL: Could not process file "; Str filepath; Lit ". Error: "] ++ exc_args e.

Definition msg_failed : message :=
  [Lit (re.newline ++ "Validation FAILED. See errors above.")].

Definition msg_success : message :=
  [Lit (re.newline ++ "All changed geofeed files validated SUCCESSFULLY.")].

(** The level of a line is the tag its text starts with. *)
Definition starts_with_tag (tag : string) (line : message) : bool :=
  match line with
  | Lit s :: _ => startswith s tag
  | _ => false
  end.

Definition is_error_level (line : message) : bool :=
  starts_with_tag "  ERROR: " line || starts_with_tag "  FATAL: " line.

Definition is_error_event (ev : event) : bool :=
  match ev with
  | EvPrint line => is_error_level line
  | EvOpen _ => false
  end.

(** *** The checks of one row (the body of the inner [for]) *)

(** [row[i]]; every use is guarded by a test of [len(row)]. *)
Definition field (row : list string) (i : nat) : string := nth i row EmptyString.

(** [if not row or (row[0].strip().startswith('#'))] *)
Definition skipped (row : list string) : bool :=
  match row with
  | [] => true
  | _ => startswith (strip (field row 0)) "#"
  end.

(** [if len(row) > 0 and row[-1] == '': row.pop()] *)
Definition pop_trailing_empty (row : list string) : list string :=
  if (0 <? length row)%nat && String.eqb (last row EmptyString) EmptyString
  then removelast row else row.

(** Step 4, the country code. *)
Definition check_country (filepath : string) (linenum : nat) (country_code : string)
    (st : state) : state :=
  if negb (re.match_ COUNTRY_CODE_REGEX country_code) then
    set_failed (print (msg_country_code filepath linenum country_code) st)
  else st.

(** Step 5, the region code. *)
Definition check_region (filepath : string) (linenum : nat) (row : list string)
    (st : state) : state :=
  if (3 <=? length row)%nat && truthy (strip (field row 2)) then
    let region_code := strip (field row 2) in
    if negb (re.match_ REGION_CODE_REGEX region_code) then
      set_failed (print (msg_region_code filepath linenum region_code) st)
    else st
  else st.

(** Step 6, the length of the city name. *)
Definition check_city_length (filepath : string) (linenum : nat) (row : list string)
    (st : state) : state :=
  if (length row =? 4)%nat && truthy (strip (field row 3)) then
    let city_name := strip (field row 3) in
    if (64 <? String.length city_name)%nat then
      print (msg_city_long filepath linenum city_name) st
    else st
  else st.

(** Step 7, a city without a region. *)
Definition check_city_without_region (filepath : string) (linenum : nat)
    (row : list string) (st : state) : state :=
  if (length row =? 4)%nat && truthy (strip (field row 3))
     && ((length row <? 3)%nat || negb (truthy (strip (field row 2)))) then
    print (msg_city_without_region filepath linenum (field row 3)) st
  else st.

(** Steps 4 to 7: what follows the containment check. *)
Definition remaining_checks (filepath : string) (linenum : nat) (row : list string)
    (st : state) : state :=
  let country_code := strip (field row 1) in
  check_city_without_region filepath linenum row
    (check_city_length filepath linenum row
       (check_region filepath linenum row
          (check_country filepath linenum country_code st))).

Definition validate_row (filepath : string) (linenum : nat) (row : list string)
    (st : state) : outcome :=
  if skipped row then Completed st
  else
    let row := pop_trailing_empty row in
    if negb ((2 <=? length row)%nat && (length row <=? 4)%nat) then
      Completed (set_failed (print (msg_column_count filepath linenum (length row)) st))
    else
      let ip_prefix := strip (field row 0) in
      match ipaddress.ip_network ip_prefix true with
      | Raise e =>
          if isinstance e ValueError then
            Completed (set_failed (print (msg_invalid_prefix filepath linenum ip_prefix e) st))
          else Raised e st
      | Return network =>
          match ipaddress.subnet_of network SUPERNET with
          | Raise e => Raised e st
          | Return within =>
              let st :=
                if negb within then
                  set_failed (print (msg_not_within filepath linenum ip_prefix) st)
                else st in
              Completed (remaining_checks filepath linenum row st)
          end
      end.

(** [for i, row in enumerate(reader)] *)
Fixpoint validate_rows (filepath : string) (i : nat) (rows : reader) (st : state)
    : outcome :=
  match rows with
  | StopIteration => Completed st
  | ReaderRaise e => Raised e st
  | Next row rest =>
      let linenum := i + 1 in
      match validate_row filepath linenum row st with
      | Completed st => validate_rows filepath (S i) rest st
      | Raised e st => Raised e st
      end
  end.

(** The body of the outer [for]: the header, the [try] block and its two
    handlers. *)
Definition validate_file (fs : filesystem) (filepath : string) (st : state) : state :=
  let st := print (msg_header filepath) st in
  let st := record_open filepath st in
  let tried :=
    match fs filepath with
    | OpenRaise e => Raised e st
    | OpenOk rows => validate_rows filepath 0 rows st
    end in
  match tried with
  | Completed st => st
  | Raised e st =>
      if isinstance e FileNotFoundError then print (msg_not_found filepath) st
      else set_failed (print (msg_fatal filepath e) st)
  end.

Definition validate_files (fs : filesystem) (files : list string) (st : state) : state :=
  fold_left (fun st filepath => validate_file fs filepath st) files st.

(** The whole script: the final state and the exit status. *)
Definition main (fs : filesystem) (files_to_check : list string) : state * N :=
  let st := initial_state in
  match files_to_check with
  | [] => (print msg_nothing_to_check st, 0%N)
  | _ =>
      let st := validate_files fs files_to_check st in
      if validation_failed st then (print msg_failed st, 1%N)
      else (print msg_success st, 0%N)
  end.

(** The lines printed, in order. *)
Definition printed (st : state) : list message :=
  flat_map (fun ev => match ev with EvPrint l => [l] | EvOpen _ => [] end) (trace st).

Definition opened (st : state) : list string :=
  flat_map (fun ev => match ev with EvOpen f => [f] | EvPrint _ => [] end) (trace st).

(** *** Vocabulary of the properties *)

(** The state in which a block ends, normally or by an exception. *)
Definition final_state (o : outcome) : state :=
  match o with
  | Completed st => st
  | Raised _ st => st
  end.

(** [st'] is reached from [st]: the trace has only grown, and the flag of
    [st'] is the flag of [st] or-ed with "an error-level line was printed
    in between". *)
Definition extends (st st' : state) : Prop :=
  exists suffix,
    trace st' = trace st ++ suffix /\
    validation_failed st' = validation_failed st || existsb is_error_event suffix.

(** A reader that yields the rows [pre] and then behaves as [rest]. *)
Definition rows_then (pre : list (list string)) (rest : reader) : reader :=
  fold_right Next rest pre.

Definition parse_address (v : ip_version) : string -> result BaseAddress :=
  match v with
  | V4 => ipaddress.IPv4Address
  | V6 => ipaddress.IPv6Address
  end.

Definition make_netmask (v : ip_version)
    : ipaddress.mask_arg -> result (BaseAddress * N) :=
  match v with
  | V4 => ipaddress._make_netmask_v4
  | V6 => ipaddress._make_netmask_v6
  end.

(** [ip_prefix] reads as an address of version [v] and a mask of that
    version, which make up [net], and the address has bits set outside the
    mask. *)
Definition host_bits_set (v : ip_version) (ip_prefix : string) (net : BaseNetwork)
    : Prop :=
  exists addr mask,
    ipaddress._split_addr_prefix v ip_prefix = Return (addr, mask) /\
    parse_address v addr = Return (network_address net) /\
    make_netmask v mask = Return (netmask net, _prefixlen net) /\
    N.land (_ip (network_address net)) (_ip (netmask net)) <> _ip (network_address net).

(** The exception [ip_network] raises for such a prefix. *)
Definition host_bits_error (net : BaseNetwork) : exception :=
  mk_exception ValueError [Net net; Lit " has host bits set"].

(** The exception [subnet_of] raises when the versions differ. *)
Definition version_mismatch (a b : BaseNetwork) : exception :=
  mk_exception TypeError [Net a; Lit " and "; Net b; Lit " are not of the same version"].

(** The fields of a row as the checks see them: the row is kept, its one
    trailing empty field is dropped and between 2 and 4 fields are left. *)
Definition well_formed (row : list string) : Prop :=
  skipped row = false /\
  2 <= length (pop_trailing_empty row) <= 4.

(** A computation that raises nothing but [ValueError] and its subclasses. *)
Definition only_value_errors {A} (c : result A) : Prop :=
  match c with
  | Return _ => True
  | Raise e => isinstance e ValueError = true
  end.

(** Every line printed on the way from [st] to [st'] satisfies [P]. *)
Definition prints_only (P : message -> Prop) (st st' : state) : Prop :=
  exists suffix,
    trace st' = trace st ++ suffix /\
    forall line, In (EvPrint line) suffix -> P line.

(** The region-format error, for whatever file, line and code. *)
Definition is_region_error (line : message) : Prop :=
  exists filepath linenum region_code,
    line = msg_region_code filepath linenum region_code.

(** *** Vocabulary of the further properties *)

(** The state [s0], reached from the initial state, carried over to a run
    that had already reached [st]. *)
Definition after (st s0 : state) : state :=
  mk_state (validation_failed st || validation_failed s0) (trace st ++ trace s0).

Definition outcome_after (st : state) (o : outcome) : outcome :=
  match o with
  | Completed s0 => Completed (after st s0)
  | Raised e s0 => Raised e (after st s0)
  end.

(** The lines one row prints, and the lines one file prints. *)
Definition row_lines (filepath : string) (linenum : nat) (row : list string)
    : list message :=
  printed (final_state (validate_row filepath linenum row initial_state)).

Definition file_lines (fs : filesystem) (filepath : string) : list message :=
  printed (validate_file fs filepath initial_state).

(** Two letters A-Z. *)
Definition is_country_code (s : string) : bool :=
  match s with
  | String a (String b EmptyString) => re.upper a && re.upper b
  | _ => false
  end.

(** Two letters A-Z, a hyphen, one to three letters or digits. *)
Definition is_region_code (s : string) : bool :=
  match s with
  | String a (String b (String "-" w)) =>
      re.upper a && re.upper b
      && (1 <=? String.length w)%nat && (String.length w <=? 3)%nat
      && forallb re.alnum w
  | _ => false
  end.

(** A row that meets every requirement on its fields: 2 to 4 of them once
    the trailing empty one is dropped, a prefix that is a network inside
    [SUPERNET], a country code, and a region code unless the region is
    missing or blank. *)
Definition valid_row (row : list string) : Prop :=
  2 <= length (pop_trailing_empty row) <= 4
  /\ (exists network,
        ipaddress.ip_network (strip (field row 0)) true = Return network
        /\ ipaddress.subnet_of network SUPERNET = Return true)
  /\ is_country_code (strip (field row 1)) = true
  /\ (truthy (strip (field row 2)) = false
      \/ is_region_code (strip (field row 2)) = true).

(** The line [line] when [b] holds, nothing otherwise. *)
Definition when (b : bool) (line : message) : list message :=
  if b then [line] else [].

(** The rows a reader yields before it ends or raises. *)
Fixpoint reader_rows (rows : reader) : list (list string) :=
  match rows with
  | StopIteration => []
  | ReaderRaise _ => []
  | Next row rest => row :: reader_rows rest
  end.

(** The row completes and, started with the flag down, leaves it down. *)
Definition row_passes (filepath : string) (linenum : nat) (row : list string) : Prop :=
  exists st,
    validate_row filepath linenum row initial_state = Completed st
    /\ validation_failed st = false.


(** A row the validator has nothing against: a blank or comment row, or a
    valid row. *)
Definition acceptable (row : list string) : Prop :=
  skipped row = true \/ valid_row row.

(** A reader whose rows are all acceptable and that ends without an
    exception other than [FileNotFoundError]. *)
Fixpoint clean_reader (rows : reader) : Prop :=
  match rows with
  | StopIteration => True
  | ReaderRaise e => exc_type e = FileNotFoundError
  | Next row rest => acceptable row /\ clean_reader rest
  end.

(** A path that leaves the flag alone: the file is missing, or it opens
    and its reader is clean. *)
Definition clean_file (opening : open_result) : Prop :=
  match opening with
  | OpenRaise e => exc_type e = FileNotFoundError
  | OpenOk rows => clean_reader rows
  end.

(** The first and the last address of [SUPERNET]: [2a0f:1cc0::] and
    [2a0f:1cc7:ffff:ffff:ffff:ffff:ffff:ffff]. *)
Definition supernet_first : N := _ip (network_address SUPERNET).

Definition supernet_last : N := (supernet_first + 2 ^ 99 - 1)%N.

(** The number of addresses of a network: 2 to the number of host bits. *)
Definition block_size (net : BaseNetwork) : N :=
  (2 ^ (ipaddress._max_prefixlen (version net) - _prefixlen net))%N.

Definition unscoped (a : BaseAddress) : bool :=
  match _scope_id a with None => true | Some _ => false end.

(** * Properties *)

(** ** How the state evolves *)

Lemma extends_refl st : extends st st.
Proof.
  exists []. split.
  - now rewrite app_nil_r.
  - simpl. now rewrite orb_false_r.
Qed.

Lemma extends_trans st1 st2 st3 :
  extends st1 st2 -> extends st2 st3 -> extends st1 st3.
Proof.
  intros [s1 [T1 F1]] [s2 [T2 F2]]. exists (s1 ++ s2). split.
  - rewrite T2, T1. now rewrite app_assoc.
  - rewrite F2, F1, existsb_app. now rewrite orb_assoc.
Qed.

Lemma extends_print st line :
  is_error_level line = false -> extends st (print line st).
Proof.
  intros H. exists [EvPrint line]. split; [reflexivity|].
  simpl. rewrite H. now rewrite !orb_false_r.
Qed.

Lemma extends_error st line :
  is_error_level line = true -> extends st (set_failed (print line st)).
Proof.
  intros H. exists [EvPrint line]. split; [reflexivity|].
  simpl. rewrite H. now rewrite orb_true_r.
Qed.

Lemma extends_record_open st filepath : extends st (record_open filepath st).
Proof.
  exists [EvOpen filepath]. split; [reflexivity|].
  simpl. now rewrite orb_false_r.
Qed.

Create HintDb steps.
#[local] Hint Resolve extends_refl extends_print extends_error extends_record_open : steps.

Lemma check_country_extends filepath linenum country_code st :
  extends st (check_country filepath linenum country_code st).
Proof. unfold check_country. destruct (negb _); auto with steps. Qed.

Lemma check_region_extends filepath linenum row st :
  extends st (check_region filepath linenum row st).
Proof.
  unfold check_region.
  destruct (_ && _); [destruct (negb _)|]; auto with steps.
Qed.

Lemma check_city_length_extends filepath linenum row st :
  extends st (check_city_length filepath linenum row st).
Proof.
  unfold check_city_length.
  destruct (_ && _); [destruct (_ <? _)%nat|]; auto with steps.
Qed.

Lemma check_city_without_region_extends filepath linenum row st :
  extends st (check_city_without_region filepath linenum row st).
Proof.
  unfold check_city_without_region. destruct (_ && _); auto with steps.
Qed.

Lemma remaining_checks_extends filepath linenum row st :
  extends st (remaining_checks filepath linenum row st).
Proof.
  unfold remaining_checks.
  eapply extends_trans; [apply check_country_extends|].
  eapply extends_trans; [apply check_region_extends|].
  eapply extends_trans; [apply check_city_length_extends|].
  apply check_city_without_region_extends.
Qed.

Lemma validate_row_extends filepath linenum row st :
  extends st (final_state (validate_row filepath linenum row st)).
Proof.
  unfold validate_row.
  destruct (skipped row); [apply extends_refl|].
  destruct (negb _); [simpl; auto with steps|].
  destruct (ipaddress.ip_network _ _) as [network|e].
  - destruct (ipaddress.subnet_of _ _) as [within|e]; [|apply extends_refl].
    simpl. eapply extends_trans; [|apply remaining_checks_extends].
    destruct (negb within); auto with steps.
  - destruct (isinstance e ValueError); simpl; auto with steps.
Qed.

Lemma validate_rows_extends filepath rows :
  forall i st, extends st (final_state (validate_rows filepath i rows st)).
Proof.
  induction rows as [|row rest IH|e]; intros i st; simpl; try apply extends_refl.
  pose proof (validate_row_extends filepath (i + 1) row st) as H.
  destruct (validate_row filepath (i + 1) row st) as [st'|e st']; simpl in *.
  - eapply extends_trans; [exact H|apply IH].
  - exact H.
Qed.

Lemma validate_file_extends fs filepath st :
  extends st (validate_file fs filepath st).
Proof.
  unfold validate_file.
  set (st0 := record_open filepath (print (msg_header filepath) st)).
  assert (H0 : extends st st0).
  { eapply extends_trans; [apply (extends_print st (msg_header filepath)); reflexivity|
    apply extends_record_open]. }
  assert (H1 : extends st0 (final_state
            match fs filepath with
            | OpenRaise e => Raised e st0
            | OpenOk rows => validate_rows filepath 0 rows st0
            end)).
  { destruct (fs filepath); [apply extends_refl|apply validate_rows_extends]. }
  destruct (match fs filepath with OpenRaise _ => _ | OpenOk _ => _ end) as [st1|e st1];
    simpl in H1.
  - eapply extends_trans; eassumption.
  - eapply extends_trans; [exact H0|]. eapply extends_trans; [exact H1|].
    destruct (isinstance e FileNotFoundError); auto with steps.
Qed.

Lemma validate_files_extends fs files :
  forall st, extends st (validate_files fs files st).
Proof.
  unfold validate_files.
  induction files as [|f files IH]; intros st; simpl; [apply extends_refl|].
  eapply extends_trans; [apply validate_file_extends|apply IH].
Qed.

Lemma existsb_error_printed (evs : list event) :
  existsb is_error_event evs =
  existsb is_error_level
    (flat_map (fun ev => match ev with EvPrint l => [l] | EvOpen _ => [] end) evs).
Proof.
  induction evs as [|[f|l] evs IH]; simpl; auto. now rewrite IH.
Qed.

Lemma flag_of_run st :
  extends initial_state st ->
  validation_failed st = existsb is_error_level (printed st).
Proof.
  intros [suffix [T F]]. unfold printed. rewrite <- existsb_error_printed.
  rewrite T, F. reflexivity.
Qed.

(** ** Rows and readers *)

Lemma printed_print line st : printed (print line st) = printed st ++ [line].
Proof. unfold printed, print. simpl. now rewrite flat_map_app. Qed.

Lemma field_pop_trailing_empty row i :
  field (pop_trailing_empty row) i = field row i.
Proof.
  unfold pop_trailing_empty, field.
  destruct ((0 <? length row)%nat && (last row EmptyString =? EmptyString)) eqn:E;
    [|reflexivity].
  apply andb_true_iff in E as [L E]. apply String.eqb_eq in E.
  apply Nat.ltb_lt in L.
  assert (N0 : row <> []) by (intros ->; simpl in L; lia).
  rewrite (app_removelast_last EmptyString N0) at 2. rewrite E.
  destruct (Nat.lt_ge_cases i (length (removelast row))) as [Lt|Ge].
  - now rewrite app_nth1.
  - rewrite (nth_overflow (removelast row)) by lia.
    rewrite app_nth2 by lia.
    destruct (i - length (removelast row)) as [|[|k]]; reflexivity.
Qed.

Lemma skipped_snoc r x : r <> [] -> skipped (r ++ [x]) = skipped r.
Proof. destruct r as [|a r]; [congruence|reflexivity]. Qed.

Lemma pop_trailing_empty_snoc r : pop_trailing_empty (r ++ [EmptyString]) = r.
Proof.
  unfold pop_trailing_empty. rewrite last_last, removelast_last.
  rewrite length_app. simpl. replace (0 <? length r + 1)%nat with true; [reflexivity|].
  symmetry. apply Nat.ltb_lt. lia.
Qed.

Lemma pop_trailing_empty_kept r :
  last r EmptyString <> EmptyString -> pop_trailing_empty r = r.
Proof.
  intros H. unfold pop_trailing_empty.
  destruct (last r EmptyString =? EmptyString) eqn:E.
  - apply String.eqb_eq in E. contradiction.
  - now rewrite andb_false_r.
Qed.

Lemma validate_rows_rows_then filepath rest pre :
  forall i st,
    validate_rows filepath i (rows_then pre rest) st =
    match validate_rows filepath i (rows_then pre StopIteration) st with
    | Completed st1 => validate_rows filepath (i + length pre) rest st1
    | Raised e st1 => Raised e st1
    end.
Proof.
  induction pre as [|row pre IH]; intros i st; simpl.
  - now rewrite Nat.add_0_r.
  - destruct (validate_row filepath (i + 1) row st) as [st'|e st']; [|reflexivity].
    rewrite IH. now replace (S i + length pre) with (i + S (length pre)) by lia.
Qed.

Lemma column_count_ok row :
  2 <= length (pop_trailing_empty row) <= 4 ->
  negb ((2 <=? length (pop_trailing_empty row))%nat
        && (length (pop_trailing_empty row) <=? 4)%nat) = false.
Proof.
  intros [A B]. apply negb_false_iff, andb_true_iff.
  split; apply Nat.leb_le; assumption.
Qed.

(** A kept row with 2 to 4 fields is judged by its prefix. *)
Lemma validate_row_well_formed filepath linenum row st :
  well_formed row ->
  validate_row filepath linenum row st =
  let ip_prefix := strip (field row 0) in
  match ipaddress.ip_network ip_prefix true with
  | Raise e =>
      if isinstance e ValueError then
        Completed (set_failed (print (msg_invalid_prefix filepath linenum ip_prefix e) st))
      else Raised e st
  | Return network =>
      match ipaddress.subnet_of network SUPERNET with
      | Raise e => Raised e st
      | Return within =>
          Completed
            (remaining_checks filepath linenum (pop_trailing_empty row)
               (if negb within then
                  set_failed (print (msg_not_within filepath linenum ip_prefix) st)
                else st))
      end
  end.
Proof.
  intros [S C]. unfold validate_row. rewrite S, (column_count_ok _ C).
  now rewrite field_pop_trailing_empty.
Qed.

Lemma subnet_of_version_mismatch a b :
  version a <> version b ->
  ipaddress.subnet_of a b = Raise (version_mismatch a b).
Proof.
  intros H. unfold ipaddress.subnet_of, ipaddress._is_subnet_of.
  destruct (version a), (version b); try congruence; reflexivity.
Qed.

(** ** The claims *)

(** C3. The exit status is 1 exactly when an error-level line ([ERROR] or
    [FATAL]) was printed during the run, and 0 otherwise.  With no file
    path the script prints the skip message and exits with 0, and no file
    is opened. *)
Theorem C3_exit_status (fs : filesystem) (files_to_check : list string) :
  snd (main fs files_to_check) =
    (if existsb is_error_level (printed (fst (main fs files_to_check)))
     then 1 else 0)%N
  /\ main fs [] = (print msg_nothing_to_check initial_state, 0%N)
  /\ opened (fst (main fs [])) = [].
Proof.
  split; [|split; reflexivity].
  destruct files_to_check as [|f files]; [reflexivity|].
  unfold main.
  set (st := validate_files fs (f :: files) initial_state).
  pose proof (flag_of_run st (validate_files_extends fs (f :: files) initial_state)) as F.
  destruct (validation_failed st); simpl; rewrite printed_print, existsb_app, <- F;
    reflexivity.
Qed.

(** C4. The flag starts false.  Over every row, every file and every list
    of files the state only [extends]: the new flag is the old flag or-ed
    with "an error-level line was printed in between", so it is never
    reset and only an error-level line sets it.  The warnings, the
    informational lines, the headers and the summary are not error-level. *)
Theorem C4_failure_flag :
  validation_failed initial_state = false
  /\ (forall filepath linenum row st,
        extends st (final_state (validate_row filepath linenum row st)))
  /\ (forall fs filepath st, extends st (validate_file fs filepath st))
  /\ (forall fs files st, extends st (validate_files fs files st))
  /\ (forall filepath linenum city,
        is_error_level (msg_city_long filepath linenum city) = false
        /\ is_error_level (msg_city_without_region filepath linenum city) = false)
  /\ (forall filepath,
        is_error_level (msg_not_found filepath) = false
        /\ is_error_level (msg_header filepath) = false)
  /\ is_error_level msg_nothing_to_check = false
  /\ is_error_level msg_failed = false
  /\ is_error_level msg_success = false.
Proof.
  split; [reflexivity|].
  split; [exact validate_row_extends|].
  split; [exact validate_file_extends|].
  split; [exact validate_files_extends|].
  repeat split.
Qed.

(** C6. A row that is neither empty nor a comment and that, once its one
    trailing empty field is dropped, has fewer than 2 or more than 4
    fields gets the column-count error, which is error-level; the flag is
    set and nothing else is checked for the row. *)
Theorem C6_column_count (filepath : string) (linenum : nat) (row : list string)
    (st : state) :
  skipped row = false ->
  ~ (2 <= length (pop_trailing_empty row) <= 4) ->
  validate_row filepath linenum row st =
    Completed (set_failed
      (print (msg_column_count filepath linenum (length (pop_trailing_empty row))) st))
  /\ is_error_level
       (msg_column_count filepath linenum (length (pop_trailing_empty row))) = true.
Proof.
  intros S C. split; [|reflexivity].
  unfold validate_row. rewrite S.
  replace (negb _) with true; [reflexivity|].
  symmetry. apply negb_true_iff, andb_false_iff.
  destruct (Nat.le_gt_cases 2 (length (pop_trailing_empty row))) as [A|A].
  - right. apply Nat.leb_gt. lia.
  - left. apply Nat.leb_gt. lia.
Qed.

Lemma C6_column_count_witness :
  validate_row "feed.csv" 7 ["2a0f:1cc0::/32"; EmptyString] initial_state =
    Completed (set_failed (print (msg_column_count "feed.csv" 7 1) initial_state))
  /\ is_error_level (msg_column_count "feed.csv" 7 1) = true.
Proof.
  apply (C6_column_count "feed.csv" 7 ["2a0f:1cc0::/32"; EmptyString] initial_state).
  - reflexivity.
  - simpl. lia.
Defined.

(** C9. A path that names a file that does not exist ([open] raises
    [FileNotFoundError]) gets its header and the informational line, and
    the flag is left as it was.  When every path given is such a path, the
    run exits with 0. *)
Theorem C9_missing_files (fs : filesystem) :
  (forall filepath e st,
     fs filepath = OpenRaise e ->
     exc_type e = FileNotFoundError ->
     validate_file fs filepath st =
       print (msg_not_found filepath)
         (record_open filepath (print (msg_header filepath) st))
     /\ starts_with_tag "  INFO: " (msg_not_found filepath) = true
     /\ is_error_level (msg_not_found filepath) = false
     /\ validation_failed (validate_file fs filepath st) = validation_failed st)
  /\ (forall files_to_check,
        (forall f, In f files_to_check ->
           exists e, fs f = OpenRaise e /\ exc_type e = FileNotFoundError) ->
        snd (main fs files_to_check) = 0%N).
Proof.
  assert (File : forall filepath e st,
     fs filepath = OpenRaise e ->
     exc_type e = FileNotFoundError ->
     validate_file fs filepath st =
       print (msg_not_found filepath)
         (record_open filepath (print (msg_header filepath) st))).
  { intros f e st O T.
    unfold validate_file. rewrite O. unfold isinstance. rewrite T. reflexivity. }
  split.
  - intros f e st O T. rewrite (File f e st O T). repeat split.
  - intros files_to_check Missing.
    assert (Run : forall files st,
              (forall f, In f files -> In f files_to_check) ->
              validation_failed (validate_files fs files st) = validation_failed st).
    { unfold validate_files.
      induction files as [|f files IH]; intros st Sub; simpl; [reflexivity|].
      rewrite IH by (intros g G; apply Sub; now right).
      destruct (Missing f (Sub f (or_introl eq_refl))) as [e [O T]].
      rewrite (File f e st O T). reflexivity. }
    unfold main. destruct files_to_check as [|f files] eqn:E; [reflexivity|].
    rewrite Run by auto. reflexivity.
Qed.

Lemma C9_missing_files_witness :
  let fs : filesystem := fun _ => OpenRaise (mk_exception FileNotFoundError []) in
  validation_failed (validate_file fs "gone.csv" initial_state) = false
  /\ printed (validate_file fs "gone.csv" initial_state) =
       [msg_header "gone.csv"; msg_not_found "gone.csv"]
  /\ snd (main fs ["a.csv"; "b.csv"]) = 0%N.
Proof.
  intros fs.
  destruct (C9_missing_files fs) as [File Run].
  destruct (File "gone.csv" (mk_exception FileNotFoundError []) initial_state
              eq_refl eq_refl) as [V [_ [_ F]]].
  split; [exact F|]. split; [rewrite V; reflexivity|].
  apply (Run ["a.csv"; "b.csv"]).
  intros f _. exists (mk_exception FileNotFoundError []). split; reflexivity.
Defined.

(** C8, amended.  A row with a field that is not empty followed by one
    empty last field is validated as the row without that last field: the
    same outcome, lines and flag. *)
Theorem C8_one_trailing_empty_field (filepath : string) (linenum : nat)
    (r : list string) (st : state) :
  r <> [] ->
  last r EmptyString <> EmptyString ->
  validate_row filepath linenum (r ++ [EmptyString]) st =
  validate_row filepath linenum r st.
Proof.
  intros N L. unfold validate_row.
  rewrite (skipped_snoc r EmptyString N), pop_trailing_empty_snoc,
    (pop_trailing_empty_kept r L).
  reflexivity.
Qed.

Lemma C8_one_trailing_empty_field_witness :
  validate_row "feed.csv" 1 (["2a0f:1cc0::/32"; "US"] ++ [EmptyString]) initial_state =
  validate_row "feed.csv" 1 ["2a0f:1cc0::/32"; "US"] initial_state.
Proof.
  apply (C8_one_trailing_empty_field "feed.csv" 1 ["2a0f:1cc0::/32"; "US"] initial_state).
  - discriminate.
  - discriminate.
Defined.

(** C8 as stated fails: only one trailing empty field is dropped, so the
    row [2a0f:1cc0::/32,,] keeps two fields and gets the country-code
    error, while the row without its last field, [2a0f:1cc0::/32,], keeps
    one field and gets the column-count error. *)
Lemma C8_counterexample :
  ~ (forall filepath linenum r st,
       validate_row filepath linenum (r ++ [EmptyString]) st =
       validate_row filepath linenum r st).
Proof.
  intros H.
  specialize (H "feed.csv" 1 ["2a0f:1cc0::/32"; EmptyString] initial_state).
  vm_compute in H. discriminate H.
Qed.

(** C2. A kept row with 2 to 4 fields whose prefix parses as an IPv4
    network makes [subnet_of] raise the version-mismatch [TypeError].  No
    handler in the row catches it: the file ends there.  After the rows
    [pre] before it, which left the state [st1], the only further line is
    the [FATAL] one, the flag is set, and the rows [rest] after it are not
    looked at. *)
Theorem C2_ipv4_row_aborts_file (fs : filesystem) (filepath : string)
    (pre : list (list string)) (row : list string) (rest : reader)
    (network : BaseNetwork) (st st1 : state) :
  fs filepath = OpenOk (rows_then pre (Next row rest)) ->
  validate_rows filepath 0 (rows_then pre StopIteration)
    (record_open filepath (print (msg_header filepath) st)) = Completed st1 ->
  well_formed row ->
  ipaddress.ip_network (strip (field row 0)) true = Return network ->
  version network = V4 ->
  validate_row filepath (length pre + 1) row st1 =
    Raised (version_mismatch network SUPERNET) st1
  /\ validate_file fs filepath st =
       set_failed (print (msg_fatal filepath (version_mismatch network SUPERNET)) st1)
  /\ is_error_level (msg_fatal filepath (version_mismatch network SUPERNET)) = true.
Proof.
  intros O P W I V.
  assert (R : forall n, validate_row filepath n row st1 =
                        Raised (version_mismatch network SUPERNET) st1).
  { intros n. rewrite (validate_row_well_formed _ _ _ _ W). simpl. rewrite I.
    rewrite subnet_of_version_mismatch; [reflexivity|].
    rewrite V. discriminate. }
  split; [apply R|]. split; [|reflexivity].
  unfold validate_file. rewrite O, validate_rows_rows_then, P.
  simpl. rewrite R. reflexivity.
Qed.

Lemma C2_ipv4_row_aborts_file_witness :
  let rows := Next ["2a0f:1cc0::/32"; "US"]
                (Next ["192.0.2.0/24"; "US"] (Next ["not a prefix"; "US"] StopIteration)) in
  let network := mk_network (mk_address V4 3221225984 None)
                            (mk_address V4 4294967040 None) 24 in
  let st1 := record_open "feed.csv" (print (msg_header "feed.csv") initial_state) in
  validate_row "feed.csv" 2 ["192.0.2.0/24"; "US"] st1 =
    Raised (version_mismatch network SUPERNET) st1
  /\ validate_file (fun _ => OpenOk rows) "feed.csv" initial_state =
       set_failed (print (msg_fatal "feed.csv" (version_mismatch network SUPERNET)) st1)
  /\ is_error_level (msg_fatal "feed.csv" (version_mismatch network SUPERNET)) = true.
Proof.
  intros rows network st1.
  apply (C2_ipv4_row_aborts_file (fun _ => OpenOk rows) "feed.csv"
           [["2a0f:1cc0::/32"; "US"]] ["192.0.2.0/24"; "US"]
           (Next ["not a prefix"; "US"] StopIteration) network initial_state st1).
  - reflexivity.
  - vm_compute. reflexivity.
  - split; [reflexivity|]. simpl. lia.
  - vm_compute. reflexivity.
  - reflexivity.
Defined.

(** The containment check on IPv6 prefixes: a kept row with 2 to 4 fields
    whose prefix parses as a network that [subnet_of] finds outside
    [SUPERNET] gets the containment error, which sets the flag, and then
    goes through the country, region and city checks. *)
Lemma prefix_outside_supernet_reported (filepath : string) (linenum : nat)
    (row : list string) (network : BaseNetwork) (st : state) :
  well_formed row ->
  ipaddress.ip_network (strip (field row 0)) true = Return network ->
  ipaddress.subnet_of network SUPERNET = Return false ->
  validate_row filepath linenum row st =
    Completed
      (remaining_checks filepath linenum (pop_trailing_empty row)
         (set_failed (print (msg_not_within filepath linenum (strip (field row 0))) st))).
Proof.
  intros W I S. rewrite (validate_row_well_formed _ _ _ _ W). simpl.
  rewrite I, S. reflexivity.
Qed.

(** C1 at the row [192.0.2.0/24,US], followed by a row with two errors of
    its own.  The prefix parses as a network, which is not inside
    [2a0f:1cc0::/29]; yet no containment error is printed for it: the only
    line after the header is the [FATAL] one, and the next row is never
    checked. *)
Theorem C1_ipv4_prefix_not_reported :
  let rows := Next ["192.0.2.0/24"; "US"]
                (Next ["2a0f:1cc8::/32"; "us"] StopIteration) in
  let network := mk_network (mk_address V4 3221225984 None)
                            (mk_address V4 4294967040 None) 24 in
  let st := validate_file (fun _ => OpenOk rows) "feed.csv" initial_state in
  ipaddress.ip_network "192.0.2.0/24" true = Return network
  /\ printed st = [msg_header "feed.csv";
                   msg_fatal "feed.csv" (version_mismatch network SUPERNET)]
  /\ ~ In (msg_not_within "feed.csv" 1 "192.0.2.0/24") (printed st)
  /\ printed (validate_file (fun _ => OpenOk (Next ["2a0f:1cc8::/32"; "us"] StopIteration))
                "feed.csv" initial_state)
     = [msg_header "feed.csv";
        msg_not_within "feed.csv" 1 "2a0f:1cc8::/32";
        msg_country_code "feed.csv" 1 "us"].
Proof.
  intros rows network st.
  split; [vm_compute; reflexivity|].
  split; [vm_compute; reflexivity|].
  split; [|vm_compute; reflexivity].
  intros H. vm_compute in H.
  destruct H as [H|[H|[]]]; discriminate H.
Qed.

(** ** What [ip_network] can raise *)

Lemma only_value_errors_bind {A B} (c : result A) (k : A -> result B) :
  only_value_errors c -> (forall a, only_value_errors (k a)) ->
  only_value_errors (bind c k).
Proof. destruct c; simpl; auto. Qed.

Lemma only_value_errors_try_except {A} (c : result A) classes h :
  only_value_errors c -> (forall e, only_value_errors (h e)) ->
  only_value_errors (try_except c classes h).
Proof.
  destruct c as [a|e]; simpl; auto.
  intros H K. destruct (existsb _ _); auto.
Qed.

Ltac value_errors :=
  repeat first
    [ exact I
    | reflexivity
    | assumption
    | apply only_value_errors_bind; [|intros]
    | apply only_value_errors_try_except; [|intros]
    | match goal with
      | |- only_value_errors (if ?b then _ else _) => destruct b
      | |- only_value_errors (match ?x with _ => _ end) => destruct x
      | |- only_value_errors (let '_ := ?x in _) => destruct x
      end
    | progress simpl ].

Lemma split_nonempty sep s : split sep s <> [].
Proof.
  destruct s as [|c r]; simpl; [discriminate|].
  destruct (Ascii.eqb c sep); [discriminate|].
  destruct (split sep r); discriminate.
Qed.

Lemma split_addr_prefix_value_errors v s :
  only_value_errors (ipaddress._split_addr_prefix v s).
Proof.
  unfold ipaddress._split_addr_prefix, ipaddress._split_optional_netmask.
  destruct (2 <? _)%nat; [reflexivity|]. simpl.
  pose proof (split_nonempty "/" s) as N.
  destruct (split "/" s) as [|a [|m l]]; [contradiction|exact I|exact I].
Qed.

Lemma parse_octet_value_errors o : only_value_errors (ipaddress._parse_octet o).
Proof. unfold ipaddress._parse_octet. value_errors. Qed.

Lemma from_octets_value_errors octets :
  forall acc, only_value_errors (ipaddress.from_octets octets acc).
Proof.
  induction octets as [|o os IH]; intros acc; simpl; [exact I|].
  apply only_value_errors_bind; [apply parse_octet_value_errors|intros; apply IH].
Qed.

Lemma ip_int_from_string_v4_value_errors s :
  only_value_errors (ipaddress._ip_int_from_string_v4 s).
Proof.
  unfold ipaddress._ip_int_from_string_v4.
  destruct (negb _); [reflexivity|]. destruct (negb _); [reflexivity|].
  apply only_value_errors_try_except; [apply from_octets_value_errors|reflexivity].
Qed.

Lemma IPv4Address_value_errors s : only_value_errors (ipaddress.IPv4Address s).
Proof.
  unfold ipaddress.IPv4Address. destruct (contains _ _); [reflexivity|].
  apply only_value_errors_bind; [apply ip_int_from_string_v4_value_errors|reflexivity].
Qed.

Lemma address_of_int_value_errors v n :
  only_value_errors (ipaddress.address_of_int v n).
Proof. unfold ipaddress.address_of_int. value_errors. Qed.

Lemma prefix_from_ip_int_value_errors v n :
  only_value_errors (ipaddress._prefix_from_ip_int v n).
Proof. unfold ipaddress._prefix_from_ip_int. value_errors. Qed.

Lemma prefix_from_prefix_string_value_errors v s :
  only_value_errors (ipaddress._prefix_from_prefix_string v s).
Proof. unfold ipaddress._prefix_from_prefix_string. value_errors. Qed.

Lemma prefix_from_ip_string_value_errors s :
  only_value_errors (ipaddress._prefix_from_ip_string s).
Proof.
  unfold ipaddress._prefix_from_ip_string.
  apply only_value_errors_bind.
  - apply only_value_errors_try_except;
      [apply ip_int_from_string_v4_value_errors|reflexivity].
  - intros ip_int.
    apply only_value_errors_try_except; [apply prefix_from_ip_int_value_errors|].
    intros _.
    apply only_value_errors_try_except; [apply prefix_from_ip_int_value_errors|].
    reflexivity.
Qed.

Lemma make_netmask_value_errors v arg : only_value_errors (make_netmask v arg).
Proof.
  destruct v; simpl;
    [unfold ipaddress._make_netmask_v4|unfold ipaddress._make_netmask_v6];
    (apply only_value_errors_bind;
     [|intros; apply only_value_errors_bind;
         [apply address_of_int_value_errors|reflexivity]]);
    destruct arg as [n|s].
  - destruct (negb _); reflexivity.
  - apply only_value_errors_try_except;
      [apply prefix_from_prefix_string_value_errors
      |intros; apply prefix_from_ip_string_value_errors].
  - destruct (negb _); reflexivity.
  - apply prefix_from_prefix_string_value_errors.
Qed.

Lemma parse_hextet_value_errors p : only_value_errors (ipaddress._parse_hextet p).
Proof. unfold ipaddress._parse_hextet. value_errors. Qed.

Lemma parse_hextets_value_errors ps :
  forall acc, only_value_errors (ipaddress.parse_hextets ps acc).
Proof.
  induction ps as [|p ps IH]; intros acc; simpl; [exact I|].
  apply only_value_errors_bind; [apply parse_hextet_value_errors|intros; apply IH].
Qed.

Lemma find_skip_index_value_errors ip_str inner :
  forall i skip, only_value_errors (ipaddress.find_skip_index ip_str inner i skip).
Proof.
  induction inner as [|p rest IH]; intros i skip; simpl; [exact I|].
  destruct (negb _); [destruct skip; [reflexivity|]|]; apply IH.
Qed.

Lemma split_parts_value_errors ip_str parts skip :
  only_value_errors (ipaddress.split_parts ip_str parts skip).
Proof.
  unfold ipaddress.split_parts, ipaddress.leading_colon, ipaddress.trailing_colon.
  value_errors.
Qed.

Lemma ip_int_from_string_v6_value_errors s :
  only_value_errors (ipaddress._ip_int_from_string_v6 s).
Proof.
  unfold ipaddress._ip_int_from_string_v6.
  destruct (negb _); [reflexivity|]. destruct (_ <? _)%nat; [reflexivity|].
  apply only_value_errors_bind.
  - destruct (contains _ _); [|exact I].
    apply only_value_errors_bind; [|reflexivity].
    apply only_value_errors_try_except; [apply IPv4Address_value_errors|reflexivity].
  - intros parts. destruct (_ <? _)%nat; [reflexivity|].
    apply only_value_errors_bind; [apply find_skip_index_value_errors|].
    intros skip.
    apply only_value_errors_bind; [apply split_parts_value_errors|].
    intros [[hi lo] skipped].
    apply only_value_errors_try_except; [|reflexivity].
    apply only_value_errors_bind; [apply parse_hextets_value_errors|].
    intros; apply parse_hextets_value_errors.
Qed.

Lemma IPv6Address_value_errors s : only_value_errors (ipaddress.IPv6Address s).
Proof.
  unfold ipaddress.IPv6Address, ipaddress._split_scope_id.
  destruct (contains _ _); [reflexivity|].
  destruct (partition "%" s) as [[addr sep] scope].
  apply only_value_errors_bind.
  - destruct (negb sep); [exact I|]. destruct (_ || _); [reflexivity|exact I].
  - intros [addr_str scope_id].
    apply only_value_errors_bind;
      [apply ip_int_from_string_v6_value_errors|reflexivity].
Qed.

Lemma parse_address_value_errors v s : only_value_errors (parse_address v s).
Proof. destruct v; [apply IPv4Address_value_errors|apply IPv6Address_value_errors]. Qed.

Lemma network_value_errors v s strict :
  only_value_errors
    (match v with
     | V4 => ipaddress.IPv4Network s strict
     | V6 => ipaddress.IPv6Network s strict
     end).
Proof.
  destruct v; [unfold ipaddress.IPv4Network|unfold ipaddress.IPv6Network].
  - apply only_value_errors_bind; [apply split_addr_prefix_value_errors|].
    intros [addr mask].
    apply only_value_errors_bind; [apply (parse_address_value_errors V4)|].
    intros a.
    apply only_value_errors_bind; [apply (make_netmask_value_errors V4)|].
    intros [m p]. destruct (negb _); [|exact I]. destruct strict; [reflexivity|].
    apply only_value_errors_bind; [apply address_of_int_value_errors|reflexivity].
  - apply only_value_errors_bind; [apply split_addr_prefix_value_errors|].
    intros [addr mask].
    apply only_value_errors_bind; [apply (parse_address_value_errors V6)|].
    intros a.
    apply only_value_errors_bind; [apply (make_netmask_value_errors V6)|].
    intros [m p]. destruct (negb _); [|exact I]. destruct strict; [reflexivity|].
    apply only_value_errors_bind; [apply address_of_int_value_errors|reflexivity].
Qed.

(** [ip_network] raises nothing but [ValueError]s: the handler of the row
    catches whatever it raises. *)
Lemma ip_network_value_errors s strict :
  only_value_errors (ipaddress.ip_network s strict).
Proof.
  unfold ipaddress.ip_network.
  apply only_value_errors_try_except; [apply (network_value_errors V4)|].
  intros _.
  apply only_value_errors_try_except; [apply (network_value_errors V6)|].
  reflexivity.
Qed.

(** C5. A kept row with 2 to 4 fields whose first field, trimmed, does not
    parse as a network ([ip_network] raises) gets the invalid-prefix error
    with the text of the exception; the line is error-level, the flag is
    set, and the row ends there: no containment, country, region or city
    check. *)
Theorem C5_unparsable_prefix (filepath : string) (linenum : nat) (row : list string)
    (e : exception) (st : state) :
  well_formed row ->
  ipaddress.ip_network (strip (field row 0)) true = Raise e ->
  validate_row filepath linenum row st =
    Completed (set_failed
      (print (msg_invalid_prefix filepath linenum (strip (field row 0)) e) st))
  /\ is_error_level (msg_invalid_prefix filepath linenum (strip (field row 0)) e) = true.
Proof.
  intros W I. split; [|reflexivity].
  rewrite (validate_row_well_formed _ _ _ _ W). simpl. rewrite I.
  pose proof (ip_network_value_errors (strip (field row 0)) true) as V.
  rewrite I in V. simpl in V. rewrite V. reflexivity.
Qed.

Lemma C5_unparsable_prefix_witness :
  let e := mk_exception ValueError
             [Repr "2a0f:1cc0::/129";
              Lit " does not appear to be an IPv4 or IPv6 network"] in
  validate_row "feed.csv" 3 [" 2a0f:1cc0::/129 "; "us"; "nowhere"] initial_state =
    Completed (set_failed
      (print (msg_invalid_prefix "feed.csv" 3
                (strip (field [" 2a0f:1cc0::/129 "; "us"; "nowhere"] 0)) e)
         initial_state))
  /\ is_error_level
       (msg_invalid_prefix "feed.csv" 3
          (strip (field [" 2a0f:1cc0::/129 "; "us"; "nowhere"] 0)) e) = true.
Proof.
  intros e.
  apply (C5_unparsable_prefix "feed.csv" 3 [" 2a0f:1cc0::/129 "; "us"; "nowhere"]
           e initial_state).
  - split; [reflexivity|]. simpl. lia.
  - vm_compute. reflexivity.
Defined.

(** ** An IPv6 address is not an IPv4 address *)

Lemma contains_split c sep s :
  c <> sep -> contains c s = true ->
  exists p, In p (split sep s) /\ contains c p = true.
Proof.
  intros D. induction s as [|d r IH]; simpl; [discriminate|].
  intros H. destruct (Ascii.eqb d sep) eqn:E.
  - apply Ascii.eqb_eq in E. subst d.
    destruct (Ascii.eqb sep c) eqn:F.
    + apply Ascii.eqb_eq in F. congruence.
    + simpl in H. destruct (IH H) as [p [I C]]. exists p. split; [now right|exact C].
  - destruct (Ascii.eqb d c) eqn:F; simpl in H.
    + destruct (split sep r) as [|p ps].
      * exists (String d EmptyString). split; [now left|]. simpl. now rewrite F.
      * exists (String d p). split; [now left|]. simpl. now rewrite F.
    + destruct (IH H) as [p [I C]].
      destruct (split sep r) as [|q qs]; [contradiction|].
      destruct I as [->|I].
      * exists (String d p). split; [now left|]. simpl. now rewrite C, orb_true_r.
      * exists p. split; [now right|exact C].
Qed.

Lemma split_without_separator sep s :
  contains sep s = false -> split sep s = [s].
Proof.
  induction s as [|d r IH]; simpl; [reflexivity|].
  intros H. apply orb_false_iff in H as [E C]. rewrite E, (IH C). reflexivity.
Qed.

Lemma partition_before c sep s :
  contains c (fst (fst (partition sep s))) = true -> contains c s = true.
Proof.
  induction s as [|d r IH]; simpl; [auto|].
  destruct (Ascii.eqb d sep); simpl; [discriminate|].
  destruct (partition sep r) as [[b found] a]. simpl in *.
  intros H. apply orb_true_iff in H as [H|H]; [now rewrite H|].
  rewrite (IH H). apply orb_true_r.
Qed.

Lemma forallb_contains p c s :
  forallb p s = true -> contains c s = true -> p c = true.
Proof.
  induction s as [|d r IH]; simpl; [discriminate|].
  intros F C. apply andb_true_iff in F as [Pd F].
  apply orb_true_iff in C as [C|C]; [|auto].
  apply Ascii.eqb_eq in C. now subst.
Qed.

Lemma parse_octet_digits o b :
  ipaddress._parse_octet o = Return b -> forallb isdigit_char o = true.
Proof.
  unfold ipaddress._parse_octet. destruct (negb (truthy o)); [discriminate|].
  destruct (isascii o && isdigit o) eqn:E; simpl; [|discriminate].
  intros _. unfold isdigit in E.
  apply andb_true_iff in E as [_ E]. now apply andb_true_iff in E as [_ E].
Qed.

Lemma parse_octet_raises o e :
  ipaddress._parse_octet o = Raise e -> exc_type e = ValueError.
Proof.
  unfold ipaddress._parse_octet, raise.
  repeat match goal with
         | |- (if ?b then _ else _) = _ -> _ => destruct b
         | |- match ?x with _ => _ end = _ -> _ => destruct x
         end; intros H; inversion H; reflexivity.
Qed.

Lemma from_octets_colon octets :
  (exists o, In o octets /\ contains ":" o = true) ->
  forall acc, exists e,
    ipaddress.from_octets octets acc = Raise e /\ exc_type e = ValueError.
Proof.
  induction octets as [|o os IH]; intros [p [I C]] acc; [contradiction|].
  simpl. destruct (ipaddress._parse_octet o) as [b|e] eqn:E; simpl.
  - apply IH. destruct I as [->|I]; [|now exists p].
    pose proof (forallb_contains _ _ _ (parse_octet_digits _ _ E) C) as D.
    discriminate D.
  - exists e. split; [reflexivity|]. eapply parse_octet_raises; eassumption.
Qed.

Lemma IPv4Address_rejects_colon s :
  contains ":" s = true ->
  exists e, ipaddress.IPv4Address s = Raise e /\ exc_type e = AddressValueError.
Proof.
  intros C. unfold ipaddress.IPv4Address, ipaddress._ip_int_from_string_v4, raise.
  destruct (contains "/" s); [eexists; split; reflexivity|].
  destruct (negb (truthy s)); [eexists; split; reflexivity|].
  destruct (negb _); [eexists; split; reflexivity|].
  assert (D : ":"%char <> "."%char) by discriminate.
  destruct (from_octets_colon (split "." s) (contains_split _ _ _ D C) 0%N)
    as [e [R T]].
  rewrite R. unfold try_except, isinstance. simpl. rewrite T. simpl.
  eexists; split; reflexivity.
Qed.

Lemma ip_int_from_string_v6_colon s ip :
  ipaddress._ip_int_from_string_v6 s = Return ip -> contains ":" s = true.
Proof.
  unfold ipaddress._ip_int_from_string_v6.
  destruct (negb (truthy s)); [discriminate|].
  destruct (contains ":" s) eqn:C; [reflexivity|].
  rewrite (split_without_separator _ _ C). discriminate.
Qed.

Lemma IPv6Address_has_colon s a :
  ipaddress.IPv6Address s = Return a -> contains ":" s = true.
Proof.
  unfold ipaddress.IPv6Address, ipaddress._split_scope_id.
  destruct (contains "/" s); [discriminate|].
  pose proof (partition_before ":" "%" s) as P.
  destruct (partition "%" s) as [[addr sep] scope]. simpl in P.
  destruct (negb sep); simpl.
  - destruct (ipaddress._ip_int_from_string_v6 addr) as [ip|e] eqn:E; [|discriminate].
    intros _. apply P. eapply ip_int_from_string_v6_colon; eassumption.
  - destruct (_ || _); simpl; [discriminate|].
    destruct (ipaddress._ip_int_from_string_v6 addr) as [ip|e] eqn:E; [|discriminate].
    intros _. apply P. eapply ip_int_from_string_v6_colon; eassumption.
Qed.

Lemma split_addr_prefix_other_version v w s addr mask :
  ipaddress._split_addr_prefix v s = Return (addr, mask) ->
  exists mask', ipaddress._split_addr_prefix w s = Return (addr, mask').
Proof.
  unfold ipaddress._split_addr_prefix, ipaddress._split_optional_netmask.
  destruct (2 <? _)%nat; [discriminate|]. simpl.
  destruct (split "/" s) as [|a [|m l]]; [discriminate| |];
    intros H; inversion H; subst; eexists; reflexivity.
Qed.

(** A prefix with host bits set makes [ip_network] raise the
    [ValueError] of the strict check, whichever the version. *)
Lemma ip_network_host_bits v s net :
  host_bits_set v s net ->
  ipaddress.ip_network s true = Raise (host_bits_error net).
Proof.
  intros [addr [mask [S [A [M B]]]]].
  apply N.eqb_neq in B.
  assert (Strict : forall w,
            w = v ->
            match w with
            | V4 => ipaddress.IPv4Network s true
            | V6 => ipaddress.IPv6Network s true
            end = Raise (host_bits_error net)).
  { intros w ->. destruct net as [na nm pl]. simpl in *.
    destruct v; simpl in A, M;
      [unfold ipaddress.IPv4Network|unfold ipaddress.IPv6Network];
      rewrite S; simpl; rewrite A; simpl; rewrite M; simpl; rewrite B; reflexivity. }
  unfold ipaddress.ip_network. destruct v.
  - rewrite (Strict V4 eq_refl). reflexivity.
  - destruct (split_addr_prefix_other_version V6 V4 _ _ _ S) as [mask' S4].
    destruct (IPv4Address_rejects_colon addr (IPv6Address_has_colon _ _ A))
      as [e [R T]].
    replace (ipaddress.IPv4Network s true) with (@Raise BaseNetwork e).
    + unfold try_except at 1. unfold isinstance. rewrite T. simpl.
      rewrite (Strict V6 eq_refl). reflexivity.
    + unfold ipaddress.IPv4Network. rewrite S4. simpl. rewrite R. reflexivity.
Qed.

(** C10. Parsing is strict.  A kept row with 2 to 4 fields whose first
    field, trimmed, is an address and a mask with bits of the address set
    outside the mask makes [ip_network] raise; the row gets the
    invalid-prefix error carrying the text of that exception, the line is
    error-level, the flag is set and the row ends there. *)
Theorem C10_host_bits_set (filepath : string) (linenum : nat) (row : list string)
    (v : ip_version) (net : BaseNetwork) (st : state) :
  well_formed row ->
  host_bits_set v (strip (field row 0)) net ->
  ipaddress.ip_network (strip (field row 0)) true = Raise (host_bits_error net)
  /\ validate_row filepath linenum row st =
       Completed (set_failed
         (print (msg_invalid_prefix filepath linenum (strip (field row 0))
                   (host_bits_error net)) st))
  /\ is_error_level
       (msg_invalid_prefix filepath linenum (strip (field row 0))
          (host_bits_error net)) = true.
Proof.
  intros W H. pose proof (ip_network_host_bits _ _ _ H) as R.
  split; [exact R|]. split; [|reflexivity].
  rewrite (validate_row_well_formed _ _ _ _ W). simpl. rewrite R. reflexivity.
Qed.

Lemma C10_host_bits_set_witness :
  let row := ["2a0f:1cc0::1/32"; "US"] in
  let net := mk_network (mk_address V6 55906043395120594061912542460187246593 None)
               (mk_address V6 340282366841710300949110269838224261120 None) 32 in
  ipaddress.ip_network (strip (field row 0)) true = Raise (host_bits_error net)
  /\ validate_row "feed.csv" 1 row initial_state =
       Completed (set_failed
         (print (msg_invalid_prefix "feed.csv" 1 (strip (field row 0))
                   (host_bits_error net)) initial_state))
  /\ is_error_level
       (msg_invalid_prefix "feed.csv" 1 (strip (field row 0))
          (host_bits_error net)) = true.
Proof.
  intros row net.
  apply (C10_host_bits_set "feed.csv" 1 row V6 net initial_state).
  - split; [reflexivity|]. simpl. lia.
  - exists "2a0f:1cc0::1", (ipaddress.MaskStr "32").
    split; [vm_compute; reflexivity|].
    split; [vm_compute; reflexivity|].
    split; [vm_compute; reflexivity|].
    vm_compute. discriminate.
Defined.

(** ** The region check *)

Lemma prints_only_refl P st : prints_only P st st.
Proof. exists []. split; [now rewrite app_nil_r|contradiction]. Qed.

Lemma prints_only_trans P st1 st2 st3 :
  prints_only P st1 st2 -> prints_only P st2 st3 -> prints_only P st1 st3.
Proof.
  intros [s1 [T1 F1]] [s2 [T2 F2]]. exists (s1 ++ s2). split.
  - rewrite T2, T1. now rewrite app_assoc.
  - intros line I. apply in_app_or in I as [I|I]; auto.
Qed.

Lemma prints_only_print (P : message -> Prop) st line :
  P line -> prints_only P st (print line st).
Proof.
  intros H. exists [EvPrint line]. split; [reflexivity|].
  intros l [I|[]]. now inversion I; subst.
Qed.

Lemma prints_only_error (P : message -> Prop) st line :
  P line -> prints_only P st (set_failed (print line st)).
Proof.
  intros H. exists [EvPrint line]. split; [reflexivity|].
  intros l [I|[]]. now inversion I; subst.
Qed.

Ltac not_region_error :=
  let H := fresh in
  intros [? [? [? H]]]; inversion H.

Lemma blank_region_prints_only filepath linenum row st :
  truthy (strip (field row 2)) = false ->
  prints_only (fun line => ~ is_region_error line) st
    (final_state (validate_row filepath linenum row st)).
Proof.
  intros B. unfold validate_row.
  destruct (skipped row); [apply prints_only_refl|].
  destruct (negb _); [simpl; apply prints_only_error; not_region_error|].
  destruct (ipaddress.ip_network _ _) as [network|e].
  - destruct (ipaddress.subnet_of _ _) as [within|e]; [|apply prints_only_refl].
    simpl. unfold remaining_checks.
    assert (R : forall s, check_region filepath linenum (pop_trailing_empty row) s = s).
    { intros s. unfold check_region.
      rewrite field_pop_trailing_empty, B, andb_false_r. reflexivity. }
    rewrite R.
    eapply prints_only_trans;
      [|unfold check_city_without_region; destruct (_ && _);
        [apply prints_only_print; not_region_error|apply prints_only_refl]].
    eapply prints_only_trans;
      [|unfold check_city_length; destruct (_ && _);
        [destruct (_ <? _)%nat;
         [apply prints_only_print; not_region_error|apply prints_only_refl]
        |apply prints_only_refl]].
    eapply prints_only_trans;
      [|unfold check_country; destruct (negb _);
        [apply prints_only_error; not_region_error|apply prints_only_refl]].
    destruct (negb within);
      [apply prints_only_error; not_region_error|apply prints_only_refl].
  - destruct (isinstance e ValueError); simpl;
      [apply prints_only_error; not_region_error|apply prints_only_refl].
Qed.

Lemma extends_in st st' ev : extends st st' -> In ev (trace st) -> In ev (trace st').
Proof. intros [s [T _]] I. rewrite T. apply in_or_app. now left. Qed.

Lemma extends_failed st st' :
  extends st st' -> validation_failed st = true -> validation_failed st' = true.
Proof. intros [s [_ F]] H. now rewrite F, H. Qed.

Lemma present_field_length row i :
  truthy (strip (field row i)) = true -> i < length row.
Proof.
  intros H. destruct (Nat.lt_ge_cases i (length row)) as [L|G]; [exact L|].
  unfold field in H. rewrite nth_overflow in H by exact G. discriminate H.
Qed.

(** The region check.  First, for any row at all: when its third field is
    missing or blank once trimmed, no region-format error is printed for
    it.  Second,
    for a row that reaches the region check (it is kept, has 2 to 4 fields
    and its prefix passed [ip_network] and [subnet_of]): when the third
    field, trimmed, is not blank and does not match
    [^[A-Z]{2}-[A-Za-z0-9]{1,3}$], the row ends with the region-format
    error for that field printed and the flag set.  Third, [us-ca] does
    not match. *)
Lemma region_check_on_reached_rows (filepath : string) (linenum : nat) (row : list string)
    (st : state) :
  (truthy (strip (field row 2)) = false ->
   prints_only (fun line => ~ is_region_error line) st
     (final_state (validate_row filepath linenum row st)))
  /\ (forall network within,
        well_formed row ->
        ipaddress.ip_network (strip (field row 0)) true = Return network ->
        ipaddress.subnet_of network SUPERNET = Return within ->
        truthy (strip (field row 2)) = true ->
        re.match_ REGION_CODE_REGEX (strip (field row 2)) = false ->
        exists st',
          validate_row filepath linenum row st = Completed st'
          /\ In (EvPrint (msg_region_code filepath linenum (strip (field row 2))))
                (trace st')
          /\ is_error_level (msg_region_code filepath linenum (strip (field row 2)))
             = true
          /\ validation_failed st' = true)
  /\ re.match_ REGION_CODE_REGEX "us-ca" = false.
Proof.
  split; [apply blank_region_prints_only|]. split; [|reflexivity].
  intros network within W I S T M.
  rewrite (validate_row_well_formed _ _ _ _ W). simpl. rewrite I, S.
  eexists. split; [reflexivity|]. split; [|split; [reflexivity|]].
  - unfold remaining_checks.
    eapply extends_in; [apply check_city_without_region_extends|].
    eapply extends_in; [apply check_city_length_extends|].
    unfold check_region.
    rewrite field_pop_trailing_empty, T, M.
    replace (3 <=? length (pop_trailing_empty row))%nat with true.
    + simpl. apply in_or_app. right. now left.
    + symmetry. apply Nat.leb_le. apply (present_field_length _ 2).
      now rewrite field_pop_trailing_empty.
  - unfold remaining_checks.
    eapply extends_failed; [apply check_city_without_region_extends|].
    eapply extends_failed; [apply check_city_length_extends|].
    unfold check_region.
    rewrite field_pop_trailing_empty, T, M.
    replace (3 <=? length (pop_trailing_empty row))%nat with true; [reflexivity|].
    symmetry. apply Nat.leb_le. apply (present_field_length _ 2).
    now rewrite field_pop_trailing_empty.
Qed.

Lemma region_check_on_reached_rows_example :
  let row := ["2a0f:1cc0::/32"; "US"; "us-ca"] in
  let blank := ["2a0f:1cc0::/32"; "US"; " "; "Los Angeles"] in
  prints_only (fun line => ~ is_region_error line) initial_state
    (final_state (validate_row "feed.csv" 1 blank initial_state))
  /\ exists st',
       validate_row "feed.csv" 1 row initial_state = Completed st'
       /\ In (EvPrint (msg_region_code "feed.csv" 1 (strip (field row 2)))) (trace st')
       /\ is_error_level (msg_region_code "feed.csv" 1 (strip (field row 2))) = true
       /\ validation_failed st' = true.
Proof.
  intros row blank. split.
  - apply (proj1 (region_check_on_reached_rows "feed.csv" 1 blank initial_state)). reflexivity.
  - apply (proj1 (proj2 (region_check_on_reached_rows "feed.csv" 1 row initial_state))
             (mk_network (mk_address V6 55906043395120594061912542460187246592 None)
                (mk_address V6 340282366841710300949110269838224261120 None) 32)
             true).
    + split; [reflexivity|]. simpl. lia.
    + vm_compute. reflexivity.
    + vm_compute. reflexivity.
    + reflexivity.
    + reflexivity.
Defined.

(** C7 at the row [192.0.2.0/24,US,us-ca].  The row has three fields and
    its third field, [us-ca], is not blank and does not match the region
    pattern; yet no region-format error is printed for it: [subnet_of]
    raises on the IPv4 prefix before the region check is reached, no
    handler of the row catches that, and the only line after the header
    is the [FATAL] one.  The same row with a prefix inside [SUPERNET]
    gets the region-format error. *)
Theorem C7_ipv4_row_region_not_reported :
  let row := ["192.0.2.0/24"; "US"; "us-ca"] in
  let network := mk_network (mk_address V4 3221225984 None)
                            (mk_address V4 4294967040 None) 24 in
  let st := validate_file (fun _ => OpenOk (Next row StopIteration))
              "feed.csv" initial_state in
  truthy (strip (field row 2)) = true
  /\ re.match_ REGION_CODE_REGEX (strip (field row 2)) = false
  /\ ipaddress.ip_network (strip (field row 0)) true = Return network
  /\ printed st = [msg_header "feed.csv";
                   msg_fatal "feed.csv" (version_mismatch network SUPERNET)]
  /\ ~ In (msg_region_code "feed.csv" 1 "us-ca") (printed st)
  /\ printed (validate_file
                (fun _ => OpenOk (Next ["2a0f:1cc0::/32"; "US"; "us-ca"] StopIteration))
                "feed.csv" initial_state)
     = [msg_header "feed.csv"; msg_region_code "feed.csv" 1 "us-ca"].
Proof.
  intros row network st.
  split; [reflexivity|]. split; [reflexivity|].
  split; [vm_compute; reflexivity|].
  split; [vm_compute; reflexivity|].
  split; [|vm_compute; reflexivity].
  intros H. vm_compute in H.
  destruct H as [H|[H|[]]]; discriminate H.
Qed.

(** * Further properties *)

(** ** The output of a row or a file does not depend on what came before *)

Lemma after_initial st : after st initial_state = st.
Proof.
  destruct st as [b t]. unfold after. simpl. now rewrite orb_false_r, app_nil_r.
Qed.

Lemma print_after line st s0 : print line (after st s0) = after st (print line s0).
Proof. unfold print, after. simpl. now rewrite app_assoc. Qed.

Lemma record_open_after filepath st s0 :
  record_open filepath (after st s0) = after st (record_open filepath s0).
Proof. unfold record_open, after. simpl. now rewrite app_assoc. Qed.

Lemma set_failed_after st s0 : set_failed (after st s0) = after st (set_failed s0).
Proof. unfold set_failed, after. simpl. now rewrite orb_true_r. Qed.

Ltac push_after :=
  repeat first [ rewrite set_failed_after | rewrite print_after
               | rewrite record_open_after ].

Lemma remaining_checks_after filepath linenum row st s0 :
  remaining_checks filepath linenum row (after st s0) =
  after st (remaining_checks filepath linenum row s0).
Proof.
  unfold remaining_checks, check_city_without_region, check_city_length,
    check_region, check_country.
  repeat match goal with
         | |- context [if ?b then _ else _] => destruct b
         end; push_after; reflexivity.
Qed.

Lemma validate_row_after filepath linenum row st s0 :
  validate_row filepath linenum row (after st s0) =
  outcome_after st (validate_row filepath linenum row s0).
Proof.
  unfold validate_row.
  destruct (skipped row); [reflexivity|].
  destruct (negb _); [simpl; push_after; reflexivity|].
  destruct (ipaddress.ip_network _ _) as [network|e].
  - destruct (ipaddress.subnet_of _ _) as [within|e]; [|reflexivity].
    destruct (negb within); simpl; push_after;
      now rewrite remaining_checks_after.
  - destruct (isinstance e ValueError); simpl; push_after; reflexivity.
Qed.

Lemma validate_rows_after filepath rows :
  forall i st s0,
    validate_rows filepath i rows (after st s0) =
    outcome_after st (validate_rows filepath i rows s0).
Proof.
  induction rows as [|row rest IH|e]; intros i st s0; simpl; try reflexivity.
  rewrite validate_row_after.
  destruct (validate_row filepath (i + 1) row s0) as [s1|e s1]; simpl;
    [apply IH|reflexivity].
Qed.

Lemma validate_file_after fs filepath st s0 :
  validate_file fs filepath (after st s0) = after st (validate_file fs filepath s0).
Proof.
  unfold validate_file. push_after.
  destruct (fs filepath) as [e|rows].
  - destruct (isinstance e FileNotFoundError); push_after; reflexivity.
  - rewrite validate_rows_after.
    destruct (validate_rows _ _ _ _) as [s1|e s1]; simpl; [reflexivity|].
    destruct (isinstance e FileNotFoundError); push_after; reflexivity.
Qed.

Lemma validate_files_after fs files :
  forall st s0,
    validate_files fs files (after st s0) = after st (validate_files fs files s0).
Proof.
  unfold validate_files.
  induction files as [|f files IH]; intros st s0; simpl; [reflexivity|].
  now rewrite validate_file_after, IH.
Qed.

Lemma printed_after st s0 : printed (after st s0) = printed st ++ printed s0.
Proof. unfold printed, after. simpl. apply flat_map_app. Qed.

Lemma opened_after st s0 : opened (after st s0) = opened st ++ opened s0.
Proof. unfold opened, after. simpl. apply flat_map_app. Qed.

(** X1. What a row does to the state does not depend on the state it
    starts from: whether it completes or raises is the same as from the
    initial state, the events it adds are the same, and the flag is the
    flag before or-ed with the flag the row alone would leave.  In
    particular neither the flag nor earlier output ever changes what is
    printed for a row. *)
Theorem X1_row_independent_of_state (filepath : string) (linenum : nat)
    (row : list string) (st : state) :
  validate_row filepath linenum row st =
    outcome_after st (validate_row filepath linenum row initial_state)
  /\ printed (final_state (validate_row filepath linenum row st)) =
       printed st ++ row_lines filepath linenum row.
Proof.
  assert (E : validate_row filepath linenum row st =
              outcome_after st (validate_row filepath linenum row initial_state)).
  { rewrite <- validate_row_after, after_initial. reflexivity. }
  split; [exact E|].
  rewrite E. unfold row_lines.
  destruct (validate_row filepath linenum row initial_state); simpl;
    apply printed_after.
Qed.

Lemma validate_files_app fs files1 files2 st :
  validate_files fs (files1 ++ files2) st =
  validate_files fs files2 (validate_files fs files1 st).
Proof. unfold validate_files. apply fold_left_app. Qed.

Lemma validate_file_from fs filepath st :
  validate_file fs filepath st = after st (validate_file fs filepath initial_state).
Proof. rewrite <- validate_file_after, after_initial. reflexivity. Qed.

Lemma validate_files_from fs files st :
  validate_files fs files st = after st (validate_files fs files initial_state).
Proof. rewrite <- validate_files_after, after_initial. reflexivity. Qed.

(** X2. Files are validated independently of one another: from any state,
    a file adds the events it would add alone and or-s its flag into the
    flag.  So the lines of a run over [files1 ++ files2] are the lines of
    [files1] followed by those of [files2], and the flag is set when one
    of the two runs sets it. *)
Theorem X2_files_independent (fs : filesystem) (files1 files2 : list string)
    (st : state) :
  (forall filepath,
     validate_file fs filepath st = after st (validate_file fs filepath initial_state))
  /\ validate_files fs (files1 ++ files2) st =
       after (after st (validate_files fs files1 initial_state))
             (validate_files fs files2 initial_state)
  /\ printed (validate_files fs (files1 ++ files2) initial_state) =
       printed (validate_files fs files1 initial_state)
       ++ printed (validate_files fs files2 initial_state)
  /\ validation_failed (validate_files fs (files1 ++ files2) initial_state) =
       validation_failed (validate_files fs files1 initial_state)
       || validation_failed (validate_files fs files2 initial_state).
Proof.
  assert (A : forall s, validate_files fs (files1 ++ files2) s =
              after (after s (validate_files fs files1 initial_state))
                    (validate_files fs files2 initial_state)).
  { intros s. rewrite validate_files_app.
    rewrite (validate_files_from fs files2), (validate_files_from fs files1).
    reflexivity. }
  split; [intros; apply validate_file_from|].
  split; [apply A|].
  split.
  - rewrite A, !printed_after. reflexivity.
  - rewrite A. reflexivity.
Qed.

(** ** The two patterns on trimmed fields *)

Lemma rstrip_idempotent s : rstrip (rstrip s) = rstrip s.
Proof.
  induction s as [|c r IH]; simpl; [reflexivity|].
  destruct (rstrip r) as [|d r'] eqn:E.
  - destruct (isspace c) eqn:S; simpl; [reflexivity|]. now rewrite S.
  - simpl in *. now rewrite IH.
Qed.

Lemma rstrip_length s : String.length (rstrip s) <= String.length s.
Proof.
  induction s as [|c r IH]; simpl; [lia|].
  destruct (rstrip r) as [|d r'].
  - destruct (isspace c); simpl; lia.
  - simpl in *. lia.
Qed.

Lemma rstrip_app_space x c :
  isspace c = true -> rstrip (x ++ String c EmptyString)%string = rstrip x.
Proof.
  intros S. induction x as [|d r IH]; simpl.
  - now rewrite S.
  - now rewrite IH.
Qed.

Lemma length_append x y :
  String.length (x ++ y)%string = String.length x + String.length y.
Proof. induction x as [|c r IH]; simpl; [reflexivity|now rewrite IH]. Qed.

(** A trimmed string does not end with a newline. *)
Lemma trimmed_no_newline t x : rstrip t = t -> t <> (x ++ re.newline)%string.
Proof.
  intros T E. rewrite E in T. unfold re.newline in T.
  rewrite rstrip_app_space in T by reflexivity.
  pose proof (rstrip_length x) as L. rewrite T, length_append in L.
  simpl in L. lia.
Qed.

Ltac newline_end T x :=
  exfalso; apply (trimmed_no_newline _ x T); reflexivity.

Ltac split_on_upper :=
  repeat match goal with
         | |- context [re.upper ?a] => destruct (re.upper a)
         end.

Ltac split_on_eqb :=
  repeat match goal with
         | |- context [Ascii.eqb ?c ?d] =>
             let E := fresh "E" in
             destruct (Ascii.eqb c d) eqn:E;
             [apply Ascii.eqb_eq in E; subst c|]
         end.

Lemma country_code_regex t :
  rstrip t = t -> re.match_ COUNTRY_CODE_REGEX t = is_country_code t.
Proof.
  intros T.
  destruct t as [|a [|b [|c [|d r]]]]; try reflexivity;
    cbn; split_on_upper; try reflexivity; cbn; split_on_eqb; try reflexivity.
  newline_end T (String a (String b EmptyString)).
Qed.

Lemma not_hyphen_not_region a b h w :
  Ascii.eqb h "-" = false -> is_region_code (String a (String b (String h w))) = false.
Proof.
  intros H. destruct h as [[] [] [] [] [] [] [] []]; try reflexivity.
  discriminate H.
Qed.

Lemma region_code_regex t :
  rstrip t = t -> re.match_ REGION_CODE_REGEX t = is_region_code t.
Proof.
  intros T.
  destruct t as [|a [|b [|h w]]]; try reflexivity.
  - cbn. split_on_upper; reflexivity.
  - cbn. split_on_upper; reflexivity.
  - destruct (Ascii.eqb h "-") eqn:H.
    + apply Ascii.eqb_eq in H. subst h.
      destruct w as [|w1 [|w2 [|w3 [|w4 [|w5 r]]]]]; cbn; split_on_upper; cbn;
        try reflexivity.
      all: split_on_eqb; cbn; try reflexivity.
      all: repeat match goal with
             | |- context [re.alnum ?c] => destruct (re.alnum c)
             end; cbn; try reflexivity.
      all: first
             [ newline_end T (String a (String b (String "-" (String w1 EmptyString))))
             | newline_end T (String a (String b (String "-"
                                (String w1 (String w2 EmptyString)))))
             | newline_end T (String a (String b (String "-"
                                (String w1 (String w2 (String w3 EmptyString)))))) ].
    + rewrite (not_hyphen_not_region _ _ _ _ H). cbn. rewrite H.
      split_on_upper; reflexivity.
Qed.

(** ** What a row that reaches the field checks prints *)

Lemma printed_set_failed st : printed (set_failed st) = printed st.
Proof. reflexivity. Qed.

Lemma printed_check_country filepath linenum country_code st :
  printed (check_country filepath linenum country_code st) =
  printed st ++ when (negb (re.match_ COUNTRY_CODE_REGEX country_code))
                  (msg_country_code filepath linenum country_code).
Proof.
  unfold check_country, when. destruct (negb _).
  - now rewrite printed_set_failed, printed_print.
  - now rewrite app_nil_r.
Qed.

Lemma printed_check_region filepath linenum row st :
  printed (check_region filepath linenum row st) =
  printed st ++ when (truthy (strip (field row 2))
                      && negb (re.match_ REGION_CODE_REGEX (strip (field row 2))))
                  (msg_region_code filepath linenum (strip (field row 2))).
Proof.
  unfold check_region, when.
  destruct (truthy (strip (field row 2))) eqn:T.
  - replace (3 <=? length row)%nat with true
      by (symmetry; apply Nat.leb_le; now apply (present_field_length row 2)).
    simpl. destruct (negb _).
    + now rewrite printed_set_failed, printed_print.
    + now rewrite app_nil_r.
  - rewrite andb_false_r. simpl. now rewrite app_nil_r.
Qed.

Lemma printed_check_city_length filepath linenum row st :
  printed (check_city_length filepath linenum row st) =
  printed st ++ when ((length row =? 4)%nat && truthy (strip (field row 3))
                      && (64 <? String.length (strip (field row 3)))%nat)
                  (msg_city_long filepath linenum (strip (field row 3))).
Proof.
  unfold check_city_length, when.
  destruct (_ && _); simpl; [|now rewrite app_nil_r].
  destruct (_ <? _)%nat; [apply printed_print|now rewrite app_nil_r].
Qed.

Lemma printed_check_city_without_region filepath linenum row st :
  printed (check_city_without_region filepath linenum row st) =
  printed st ++ when ((length row =? 4)%nat && truthy (strip (field row 3))
                      && negb (truthy (strip (field row 2))))
                  (msg_city_without_region filepath linenum (field row 3)).
Proof.
  unfold check_city_without_region, when.
  destruct (length row =? 4)%nat eqn:L; simpl; [|now rewrite app_nil_r].
  apply Nat.eqb_eq in L. rewrite L. simpl.
  destruct (_ && _); [apply printed_print|now rewrite app_nil_r].
Qed.

Lemma country_code_trimmed s :
  re.match_ COUNTRY_CODE_REGEX (strip s) = is_country_code (strip s).
Proof. apply country_code_regex, rstrip_idempotent. Qed.

Lemma region_code_trimmed s :
  re.match_ REGION_CODE_REGEX (strip s) = is_region_code (strip s).
Proof. apply region_code_regex, rstrip_idempotent. Qed.

Lemma printed_remaining_checks filepath linenum row st :
  printed (remaining_checks filepath linenum row st) =
  printed st
  ++ when (negb (is_country_code (strip (field row 1))))
       (msg_country_code filepath linenum (strip (field row 1)))
  ++ when (truthy (strip (field row 2))
           && negb (is_region_code (strip (field row 2))))
       (msg_region_code filepath linenum (strip (field row 2)))
  ++ when ((length row =? 4)%nat && truthy (strip (field row 3))
           && (64 <? String.length (strip (field row 3)))%nat)
       (msg_city_long filepath linenum (strip (field row 3)))
  ++ when ((length row =? 4)%nat && truthy (strip (field row 3))
           && negb (truthy (strip (field row 2))))
       (msg_city_without_region filepath linenum (field row 3)).
Proof.
  unfold remaining_checks.
  rewrite printed_check_city_without_region, printed_check_city_length,
    printed_check_region, printed_check_country.
  rewrite country_code_trimmed, region_code_trimmed.
  now rewrite <- !app_assoc.
Qed.

(** X3. The lines of a row that reaches the field checks (it is kept, has
    2 to 4 fields, and its prefix went through [ip_network] and
    [subnet_of]), in the order they are printed: the containment error
    when the prefix is outside; the country error unless the second
    field, trimmed, is two letters A-Z; the region error when the third
    field, trimmed, is not blank and is not two letters A-Z, a hyphen and
    one to three letters or digits; the long-city warning when there are
    four fields and the trimmed city has more than 64 characters; the
    city-without-region warning, with the city as written, when there are
    four fields, the city is not blank and the region is. *)
Theorem X3_lines_of_a_checked_row (filepath : string) (linenum : nat)
    (row : list string) (network : BaseNetwork) (within : bool) :
  well_formed row ->
  ipaddress.ip_network (strip (field row 0)) true = Return network ->
  ipaddress.subnet_of network SUPERNET = Return within ->
  let four := (length (pop_trailing_empty row) =? 4)%nat in
  let country := strip (field row 1) in
  let region := strip (field row 2) in
  let city := strip (field row 3) in
  row_lines filepath linenum row =
    when (negb within) (msg_not_within filepath linenum (strip (field row 0)))
    ++ when (negb (is_country_code country))
         (msg_country_code filepath linenum country)
    ++ when (truthy region && negb (is_region_code region))
         (msg_region_code filepath linenum region)
    ++ when (four && truthy city && (64 <? String.length city)%nat)
         (msg_city_long filepath linenum city)
    ++ when (four && truthy city && negb (truthy region))
         (msg_city_without_region filepath linenum (field row 3)).
Proof.
  intros W I S. simpl. unfold row_lines.
  rewrite (validate_row_well_formed _ _ _ _ W). simpl. rewrite I, S. simpl.
  rewrite printed_remaining_checks, !field_pop_trailing_empty.
  destruct within; reflexivity.
Qed.

Lemma X3_lines_of_a_checked_row_witness :
  row_lines "feed.csv" 4 ["2a0f:1cc8::/32"; "us"; "CA"; " Los Angeles"; EmptyString] =
    [msg_not_within "feed.csv" 4 "2a0f:1cc8::/32";
     msg_country_code "feed.csv" 4 "us";
     msg_region_code "feed.csv" 4 "CA"].
Proof.
  apply (X3_lines_of_a_checked_row "feed.csv" 4
           ["2a0f:1cc8::/32"; "us"; "CA"; " Los Angeles"; EmptyString]
           (mk_network (mk_address V6 55906044028945894176027243208538849280 None)
              (mk_address V6 340282366841710300949110269838224261120 None) 32)
           false).
  - split; [reflexivity|]. simpl. lia.
  - vm_compute. reflexivity.
  - vm_compute. reflexivity.
Defined.

Lemma flag_check_country filepath linenum s st :
  validation_failed (check_country filepath linenum (strip s) st) =
  validation_failed st || negb (is_country_code (strip s)).
Proof.
  unfold check_country. rewrite country_code_trimmed.
  destruct (is_country_code (strip s)); simpl.
  - now rewrite orb_false_r.
  - now rewrite orb_true_r.
Qed.

Lemma flag_check_region filepath linenum row st :
  validation_failed (check_region filepath linenum row st) =
  validation_failed st
  || (truthy (strip (field row 2)) && negb (is_region_code (strip (field row 2)))).
Proof.
  unfold check_region. rewrite region_code_trimmed.
  destruct (truthy (strip (field row 2))) eqn:T.
  - replace (3 <=? length row)%nat with true
      by (symmetry; apply Nat.leb_le; now apply (present_field_length row 2)).
    simpl. destruct (is_region_code _); simpl.
    + now rewrite orb_false_r.
    + now rewrite orb_true_r.
  - rewrite andb_false_r. simpl. now rewrite orb_false_r.
Qed.

(** X5. On a trimmed field the country pattern accepts exactly the texts
    made of two letters A-Z, so the country check prints its error, and
    sets the flag, exactly for the other texts.  The [$] of the pattern
    also matches before a final newline, which a trimmed field never
    has. *)
Theorem X5_country_code_accepted (filepath : string) (linenum : nat) (s : string)
    (st : state) :
  re.match_ COUNTRY_CODE_REGEX (strip s) = is_country_code (strip s)
  /\ printed (check_country filepath linenum (strip s) st) =
       printed st ++ when (negb (is_country_code (strip s)))
                       (msg_country_code filepath linenum (strip s))
  /\ validation_failed (check_country filepath linenum (strip s) st) =
       validation_failed st || negb (is_country_code (strip s)).
Proof.
  split; [apply country_code_trimmed|]. split; [|apply flag_check_country].
  now rewrite printed_check_country, country_code_trimmed.
Qed.

(** X6. On a trimmed field the region pattern accepts exactly the texts
    made of two letters A-Z, a hyphen and one to three letters or digits.
    The region check prints its error, and sets the flag, exactly when
    the third field, trimmed, is neither blank nor such a text; a row
    with fewer than three fields never gets it. *)
Theorem X6_region_code_accepted (filepath : string) (linenum : nat)
    (row : list string) (s : string) (st : state) :
  re.match_ REGION_CODE_REGEX (strip s) = is_region_code (strip s)
  /\ printed (check_region filepath linenum row st) =
       printed st
       ++ when (truthy (strip (field row 2))
                && negb (is_region_code (strip (field row 2))))
            (msg_region_code filepath linenum (strip (field row 2)))
  /\ validation_failed (check_region filepath linenum row st) =
       validation_failed st
       || (truthy (strip (field row 2)) && negb (is_region_code (strip (field row 2))))
  /\ (length row < 3 -> check_region filepath linenum row st = st).
Proof.
  split; [apply region_code_trimmed|]. split; [|split].
  - now rewrite printed_check_region, region_code_trimmed.
  - apply flag_check_region.
  - intros L. unfold check_region.
    replace (3 <=? length row)%nat with false; [reflexivity|].
    symmetry. apply Nat.leb_gt. exact L.
Qed.

Lemma X6_region_code_accepted_witness :
  check_region "feed.csv" 1 ["2a0f:1cc0::/32"; "US"] initial_state = initial_state.
Proof.
  apply (proj2 (proj2 (proj2
           (X6_region_code_accepted "feed.csv" 1 ["2a0f:1cc0::/32"; "US"]
              EmptyString initial_state)))).
  simpl. lia.
Defined.

(** ** Valid rows *)

Lemma flag_remaining_checks filepath linenum row st :
  validation_failed (remaining_checks filepath linenum row st) =
  validation_failed st
  || negb (is_country_code (strip (field row 1)))
  || (truthy (strip (field row 2)) && negb (is_region_code (strip (field row 2)))).
Proof.
  unfold remaining_checks.
  assert (Q : forall s, validation_failed (check_city_without_region filepath linenum row s)
                        = validation_failed s).
  { intros s. unfold check_city_without_region. destruct (_ && _); reflexivity. }
  assert (L : forall s, validation_failed (check_city_length filepath linenum row s)
                        = validation_failed s).
  { intros s. unfold check_city_length.
    destruct (_ && _); [destruct (_ <? _)%nat|]; reflexivity. }
  now rewrite Q, L, flag_check_region, flag_check_country.
Qed.

Lemma column_count_bad row :
  ~ (2 <= length (pop_trailing_empty row) <= 4) ->
  negb ((2 <=? length (pop_trailing_empty row))%nat
        && (length (pop_trailing_empty row) <=? 4)%nat) = true.
Proof.
  intros C. apply negb_true_iff, andb_false_iff.
  destruct (Nat.le_gt_cases 2 (length (pop_trailing_empty row))) as [A|A].
  - right. apply Nat.leb_gt. lia.
  - left. apply Nat.leb_gt. lia.
Qed.

Lemma valid_row_passes filepath linenum row :
  skipped row = false -> valid_row row -> row_passes filepath linenum row.
Proof.
  intros K [C [[network [I S]] [Cc R]]].
  unfold row_passes.
  rewrite (validate_row_well_formed _ _ _ _ (conj K C)). simpl. rewrite I, S. simpl.
  eexists. split; [reflexivity|].
  rewrite flag_remaining_checks, !field_pop_trailing_empty, Cc. simpl.
  destruct R as [R|R]; rewrite R; [reflexivity|apply andb_false_r].
Qed.

Lemma passing_row_valid filepath linenum row :
  skipped row = false -> row_passes filepath linenum row -> valid_row row.
Proof.
  intros K [st [V F]]. unfold validate_row in V. rewrite K in V.
  destruct (Nat.le_gt_cases 2 (length (pop_trailing_empty row))) as [A|A];
    [destruct (Nat.le_gt_cases (length (pop_trailing_empty row)) 4) as [B|B]|].
  2:{ rewrite column_count_bad in V by lia. inversion V; subst. discriminate F. }
  2:{ rewrite column_count_bad in V by lia. inversion V; subst. discriminate F. }
  rewrite (column_count_ok _ (conj A B)) in V.
  rewrite field_pop_trailing_empty in V.
  destruct (ipaddress.ip_network _ _) as [network|e] eqn:I.
  2:{ destruct (isinstance e ValueError); inversion V; subst. discriminate F. }
  destruct (ipaddress.subnet_of _ _) as [within|e] eqn:S; [|discriminate V].
  inversion V; subst. clear V.
  rewrite flag_remaining_checks, !field_pop_trailing_empty in F.
  apply orb_false_iff in F as [F R]. apply orb_false_iff in F as [F Cc].
  destruct within; [|discriminate F].
  split; [lia|]. split; [exists network; split; [exact I|exact S]|].
  split; [now apply negb_false_iff in Cc|].
  destruct (truthy (strip (field row 2))); [right|now left].
  simpl in R. now apply negb_false_iff in R.
Qed.

(** X4. Among the rows that are not skipped, those that complete without
    setting the flag are exactly the valid rows: 2 to 4 fields, a prefix
    that is a network inside [SUPERNET], a country code of two letters
    A-Z, and a region that is blank or a region code.  Every other row
    sets the flag or ends the file. *)
Theorem X4_valid_rows_pass (filepath : string) (linenum : nat) (row : list string) :
  skipped row = false ->
  (row_passes filepath linenum row <-> valid_row row).
Proof.
  intros K. split; [now apply passing_row_valid|now apply valid_row_passes].
Qed.

Lemma X4_valid_rows_pass_witness :
  row_passes "feed.csv" 1 ["2a0f:1cc0::/32"; "US"; "US-CA"; "Los Angeles"].
Proof.
  apply (proj2 (X4_valid_rows_pass "feed.csv" 1
                  ["2a0f:1cc0::/32"; "US"; "US-CA"; "Los Angeles"] eq_refl)).
  split; [simpl; lia|]. split.
  - exists (mk_network (mk_address V6 55906043395120594061912542460187246592 None)
              (mk_address V6 340282366841710300949110269838224261120 None) 32).
    split; vm_compute; reflexivity.
  - split; [reflexivity|]. right. reflexivity.
Defined.

(** ** When the run exits with 0 *)

Lemma isinstance_not_found e :
  isinstance e FileNotFoundError = true <-> exc_type e = FileNotFoundError.
Proof.
  unfold isinstance, issubclass. destruct (exc_type e); simpl; split;
    intros H; try reflexivity; discriminate H.
Qed.

Lemma subnet_of_raises a b e :
  ipaddress.subnet_of a b = Raise e -> exc_type e <> FileNotFoundError.
Proof.
  unfold ipaddress.subnet_of, ipaddress._is_subnet_of, ipaddress.address_le,
    ipaddress.address_ge, ipaddress.address_lt, ipaddress.broadcast_address,
    ipaddress.hostmask, ipaddress.address_of_int, raise.
  repeat match goal with
         | |- (if ?c then _ else _) = _ -> _ => destruct c; simpl
         | |- bind (if ?c then _ else _) _ = _ -> _ => destruct c; simpl
         | |- bind (bind (if ?c then _ else _) _) _ = _ -> _ => destruct c; simpl
         end;
    intros H; inversion H; subst; simpl; discriminate.
Qed.

(** The flag after the handlers of a file, from how its [try] block
    ended. *)
Lemma flag_validate_file fs filepath st :
  validation_failed (validate_file fs filepath st) =
  match
    match fs filepath with
    | OpenRaise e => Raised e (record_open filepath (print (msg_header filepath) st))
    | OpenOk rows =>
        validate_rows filepath 0 rows
          (record_open filepath (print (msg_header filepath) st))
    end
  with
  | Completed st' => validation_failed st'
  | Raised e st' => validation_failed st' || negb (isinstance e FileNotFoundError)
  end.
Proof.
  unfold validate_file.
  destruct (match fs filepath with OpenRaise _ => _ | OpenOk _ => _ end) as [s|e s];
    [reflexivity|].
  destruct (isinstance e FileNotFoundError); simpl; [now rewrite orb_false_r|].
  now rewrite orb_true_r.
Qed.

Lemma acceptable_row_passes filepath linenum row st :
  acceptable row ->
  exists st',
    validate_row filepath linenum row st = Completed st'
    /\ validation_failed st' = validation_failed st.
Proof.
  intros [K|V].
  - exists st. unfold validate_row. rewrite K. split; reflexivity.
  - destruct (skipped row) eqn:K.
    + exists st. unfold validate_row. rewrite K. split; reflexivity.
    + destruct (valid_row_passes filepath linenum row K V) as [s0 [E F]].
      exists (after st s0). rewrite <- (after_initial st) at 1.
      rewrite validate_row_after, E. split; [reflexivity|].
      simpl. rewrite F. apply orb_false_r.
Qed.

Lemma acceptable_dec_row filepath linenum row st :
  acceptable row \/
  match validate_row filepath linenum row st with
  | Completed st' => validation_failed st' = true
  | Raised e _ => exc_type e <> FileNotFoundError
  end.
Proof.
  destruct (skipped row) eqn:K; [left; now left|].
  destruct (validate_row filepath linenum row initial_state) as [s0|e s0] eqn:E0.
  - destruct (validation_failed s0) eqn:F.
    + right. rewrite <- (after_initial st), validate_row_after, E0. simpl.
      rewrite F. apply orb_true_r.
    + left. right. apply (passing_row_valid filepath linenum row K).
      exists s0. split; assumption.
  - right. rewrite <- (after_initial st), validate_row_after, E0. simpl.
    unfold validate_row in E0. rewrite K in E0.
    destruct (negb _); [discriminate E0|].
    destruct (ipaddress.ip_network _ _) as [network|e'] eqn:I.
    + destruct (ipaddress.subnet_of _ _) as [within|e''] eqn:S; [discriminate E0|].
      inversion E0; subst. eapply subnet_of_raises; eassumption.
    + pose proof (ip_network_value_errors
                    (strip (field (pop_trailing_empty row) 0)) true) as O.
      rewrite I in O. simpl in O. rewrite O in E0. discriminate E0.
Qed.

Lemma clean_reader_verdict filepath rows :
  forall i st,
    validation_failed st = false ->
    (match validate_rows filepath i rows st with
     | Completed st' => validation_failed st'
     | Raised e st' => validation_failed st' || negb (isinstance e FileNotFoundError)
     end = false
     <-> clean_reader rows).
Proof.
  induction rows as [|row rest IH|e]; intros i st F; simpl.
  - rewrite F. tauto.
  - destruct (acceptable_dec_row filepath (i + 1) row st) as [A|B].
    + destruct (acceptable_row_passes filepath (i + 1) row st A) as [st' [E F']].
      rewrite E. rewrite (IH (S i) st') by congruence. tauto.
    + split.
      * intros H. exfalso.
        destruct (validate_row filepath (i + 1) row st) as [st'|e st'] eqn:E.
        -- pose proof (validate_rows_extends filepath rest (S i) st') as X.
           pose proof (extends_failed _ _ X B) as T.
           destruct (validate_rows filepath (S i) rest st') as [s|e s];
             simpl in T; rewrite T in H; discriminate H.
        -- apply orb_false_iff in H as [_ H]. apply negb_false_iff in H.
           apply isinstance_not_found in H. contradiction.
      * intros [A _]. exfalso.
        destruct (acceptable_row_passes filepath (i + 1) row st A) as [st' [E F']].
        rewrite E in B. congruence.
  - rewrite F. simpl. rewrite negb_false_iff. apply isinstance_not_found.
Qed.

Lemma clean_file_flag fs filepath :
  validation_failed (validate_file fs filepath initial_state) = false
  <-> clean_file (fs filepath).
Proof.
  rewrite flag_validate_file. unfold clean_file.
  destruct (fs filepath) as [e|rows].
  - simpl. rewrite negb_false_iff. apply isinstance_not_found.
  - apply clean_reader_verdict. reflexivity.
Qed.

Lemma flag_validate_files fs files :
  validation_failed (validate_files fs files initial_state) = false
  <-> forall f, In f files -> clean_file (fs f).
Proof.
  induction files as [|f files IH].
  - simpl. split; [intros _ g []|reflexivity].
  - change (f :: files) with ([f] ++ files).
    rewrite validate_files_app, validate_files_from. simpl.
    rewrite orb_false_iff, IH.
    change (validate_files fs [f] initial_state)
      with (validate_file fs f initial_state).
    rewrite clean_file_flag. split.
    + intros [A B] g [<-|G]; auto.
    + intros H. split; [apply H; now left|intros g G; apply H; now right].
Qed.

Lemma exit_status_cases fs files :
  snd (main fs files) = 0%N \/ snd (main fs files) = 1%N.
Proof.
  unfold main. destruct files as [|f files]; [now left|].
  destruct (validation_failed _); [now right|now left].
Qed.

Lemma exit_zero_clean fs files :
  snd (main fs files) = 0%N <-> forall f, In f files -> clean_file (fs f).
Proof.
  unfold main. destruct files as [|f files].
  - simpl. split; [intros _ g []|reflexivity].
  - rewrite <- flag_validate_files.
    destruct (validation_failed (validate_files fs (f :: files) initial_state));
      simpl; split; intros H; try reflexivity; discriminate H.
Qed.

(** X7. The run exits with 0 exactly when every given path is clean: the
    file is missing, or it opens, its reader ends without an exception
    (other than [FileNotFoundError]) and each of its rows is blank, a
    comment or a valid row.  Otherwise it exits with 1: one row that is
    neither, anywhere in a file that opens, is enough. *)
Theorem X7_exit_zero_iff_clean (fs : filesystem) (files_to_check : list string) :
  (snd (main fs files_to_check) = 0%N
   <-> forall f, In f files_to_check -> clean_file (fs f))
  /\ (snd (main fs files_to_check) = 0%N \/ snd (main fs files_to_check) = 1%N).
Proof. split; [apply exit_zero_clean|apply exit_status_cases]. Qed.

(** ** Files that cannot be read *)

(** X8. An exception other than [FileNotFoundError], raised by [open] or
    by the reader after some rows, is reported by one [FATAL] line with
    its text after everything printed so far for the file; the flag is
    set, the lines of the rows before it are kept, and the run exits
    with 1. *)
Theorem X8_unreadable_file (fs : filesystem) (filepath : string) (e : exception)
    (st : state) :
  exc_type e <> FileNotFoundError ->
  (fs filepath = OpenRaise e ->
   validate_file fs filepath st =
     set_failed (print (msg_fatal filepath e)
                   (record_open filepath (print (msg_header filepath) st))))
  /\ (forall pre st1,
        fs filepath = OpenOk (rows_then pre (ReaderRaise e)) ->
        validate_rows filepath 0 (rows_then pre StopIteration)
          (record_open filepath (print (msg_header filepath) st)) = Completed st1 ->
        validate_file fs filepath st = set_failed (print (msg_fatal filepath e) st1))
  /\ (forall files_to_check pre,
        In filepath files_to_check ->
        fs filepath = OpenRaise e \/ fs filepath = OpenOk (rows_then pre (ReaderRaise e)) ->
        snd (main fs files_to_check) = 1%N).
Proof.
  intros N.
  assert (I : isinstance e FileNotFoundError = false).
  { destruct (isinstance e FileNotFoundError) eqn:I; [|reflexivity].
    apply isinstance_not_found in I. contradiction. }
  split; [|split].
  - intros O. unfold validate_file. rewrite O, I. reflexivity.
  - intros pre st1 O P. unfold validate_file.
    rewrite O, validate_rows_rows_then, P. simpl. rewrite I. reflexivity.
  - intros files pre M O.
    destruct (exit_status_cases fs files) as [Z|U]; [|exact U].
    exfalso. pose proof (proj1 (exit_zero_clean fs files) Z filepath M) as Y.
    clear Z. rename Y into Z. destruct O as [O|O]; rewrite O in Z; simpl in Z.
    + contradiction.
    + clear O. induction pre as [|row pre IH]; simpl in Z; [contradiction|].
      apply IH, Z.
Qed.

Lemma X8_unreadable_file_witness :
  let e := mk_exception (OtherException "PermissionError") [Lit "Permission denied"] in
  let fs : filesystem :=
    fun f => if String.eqb f "locked.csv" then OpenRaise e
             else OpenOk (Next ["2a0f:1cc0::/32"; "US"] StopIteration) in
  validate_file fs "locked.csv" initial_state =
    set_failed (print (msg_fatal "locked.csv" e)
                  (record_open "locked.csv" (print (msg_header "locked.csv") initial_state)))
  /\ snd (main fs ["good.csv"; "locked.csv"; "other.csv"]) = 1%N.
Proof.
  intros e fs.
  destruct (X8_unreadable_file fs "locked.csv" e initial_state) as [A [_ C]].
  - discriminate.
  - split; [apply A; reflexivity|].
    apply (C ["good.csv"; "locked.csv"; "other.csv"] []).
    + right. now left.
    + now left.
Defined.

(** ** The shape of a run *)

Lemma opened_print line st : opened (print line st) = opened st.
Proof. unfold opened, print. simpl. rewrite flat_map_app. simpl. apply app_nil_r. Qed.

Lemma opened_set_failed st : opened (set_failed st) = opened st.
Proof. reflexivity. Qed.

Lemma opened_record_open filepath st :
  opened (record_open filepath st) = opened st ++ [filepath].
Proof. unfold opened, record_open. simpl. now rewrite flat_map_app. Qed.

Ltac opened_same :=
  repeat first [ rewrite opened_set_failed | rewrite opened_print ]; try reflexivity.

Lemma opened_remaining_checks filepath linenum row st :
  opened (remaining_checks filepath linenum row st) = opened st.
Proof.
  unfold remaining_checks, check_city_without_region, check_city_length,
    check_region, check_country.
  repeat match goal with
         | |- context [if ?b then _ else _] => destruct b
         end; opened_same.
Qed.

Lemma opened_validate_row filepath linenum row st :
  opened (final_state (validate_row filepath linenum row st)) = opened st.
Proof.
  unfold validate_row.
  destruct (skipped row); [reflexivity|].
  destruct (negb _); [simpl; opened_same|].
  destruct (ipaddress.ip_network _ _) as [network|e].
  - destruct (ipaddress.subnet_of _ _) as [within|e]; [|reflexivity].
    simpl. rewrite opened_remaining_checks. destruct (negb within); opened_same.
  - destruct (isinstance e ValueError); simpl; opened_same.
Qed.

Lemma opened_validate_rows filepath rows :
  forall i st, opened (final_state (validate_rows filepath i rows st)) = opened st.
Proof.
  induction rows as [|row rest IH|e]; intros i st; simpl; try reflexivity.
  pose proof (opened_validate_row filepath (i + 1) row st) as H.
  destruct (validate_row filepath (i + 1) row st) as [st'|e st']; simpl in *.
  - now rewrite IH.
  - exact H.
Qed.

Lemma opened_validate_file fs filepath st :
  opened (validate_file fs filepath st) = opened st ++ [filepath].
Proof.
  unfold validate_file.
  set (st0 := record_open filepath (print (msg_header filepath) st)).
  assert (H0 : opened st0 = opened st ++ [filepath]).
  { unfold st0. now rewrite opened_record_open, opened_print. }
  assert (H1 : opened (final_state
            match fs filepath with
            | OpenRaise e => Raised e st0
            | OpenOk rows => validate_rows filepath 0 rows st0
            end) = opened st0).
  { destruct (fs filepath); [reflexivity|apply opened_validate_rows]. }
  destruct (match fs filepath with OpenRaise _ => _ | OpenOk _ => _ end) as [st1|e st1];
    simpl in H1.
  - congruence.
  - destruct (isinstance e FileNotFoundError); opened_same; congruence.
Qed.

Lemma opened_validate_files fs files :
  forall st, opened (validate_files fs files st) = opened st ++ files.
Proof.
  unfold validate_files.
  induction files as [|f files IH]; intros st; simpl; [now rewrite app_nil_r|].
  rewrite IH, opened_validate_file, <- app_assoc. reflexivity.
Qed.

Lemma printed_validate_files fs files :
  printed (validate_files fs files initial_state) = flat_map (file_lines fs) files.
Proof.
  induction files as [|f files IH]; [reflexivity|].
  change (f :: files) with ([f] ++ files).
  rewrite validate_files_app, validate_files_from, printed_after, IH.
  reflexivity.
Qed.

Lemma file_lines_header fs filepath :
  exists rest, file_lines fs filepath = msg_header filepath :: rest.
Proof.
  unfold file_lines.
  assert (E : forall st, exists rest,
            printed (validate_file fs filepath st) =
            printed st ++ msg_header filepath :: rest).
  { intros st. unfold validate_file.
    set (st0 := record_open filepath (print (msg_header filepath) st)).
    assert (P0 : printed st0 = printed st ++ [msg_header filepath]).
    { unfold st0, printed, record_open, print. simpl.
      rewrite !flat_map_app. simpl. now rewrite app_nil_r. }
    assert (X : extends st0 (final_state
              match fs filepath with
              | OpenRaise e => Raised e st0
              | OpenOk rows => validate_rows filepath 0 rows st0
              end)).
    { destruct (fs filepath); [apply extends_refl|apply validate_rows_extends]. }
    assert (Y : forall s, extends st0 s -> exists rest,
                printed s = printed st ++ msg_header filepath :: rest).
    { intros s [suffix [T _]]. unfold printed at 1. rewrite T, flat_map_app.
      fold (printed st0). rewrite P0, <- app_assoc. simpl. eexists. reflexivity. }
    destruct (match fs filepath with OpenRaise _ => _ | OpenOk _ => _ end) as [s|e s];
      simpl in X.
    - now apply Y.
    - apply Y. eapply extends_trans; [exact X|].
      destruct (isinstance e FileNotFoundError);
        [apply extends_print|apply extends_error]; reflexivity. }
  destruct (E initial_state) as [rest R]. exists rest. exact R.
Qed.

(** X9. The shape of a run.  Every path given is opened exactly once, in
    the order given, whatever happens in the files before it.  With at
    least one path, the output is the lines of each file in that order,
    each block starting with the header of its file, then one summary
    line: the failure banner when the exit status is 1, the success
    banner when it is 0. *)
Theorem X9_shape_of_a_run (fs : filesystem) (f : string) (files : list string) :
  opened (fst (main fs (f :: files))) = f :: files
  /\ opened (fst (main fs [])) = []
  /\ printed (fst (main fs (f :: files))) =
       flat_map (file_lines fs) (f :: files)
       ++ [if (snd (main fs (f :: files)) =? 1)%N then msg_failed else msg_success]
  /\ (forall g, exists rest, file_lines fs g = msg_header g :: rest).
Proof.
  split; [|split; [reflexivity|split; [|apply file_lines_header]]].
  - unfold main.
    destruct (validation_failed (validate_files fs (f :: files) initial_state));
      cbn [fst]; rewrite opened_print, opened_validate_files; reflexivity.
  - unfold main.
    destruct (validation_failed (validate_files fs (f :: files) initial_state));
      cbn [fst snd]; rewrite printed_print, printed_validate_files;
      reflexivity.
Qed.

(** X10. Blank rows and comment rows are passed over without any effect,
    yet they count in the line numbers: after [pre], made of such rows
    only, the next row is validated in the same state under the number
    [length pre + 1].  More generally the row that follows any rows [pre]
    that completed is validated under the number [length pre + 1]. *)
Theorem X10_line_numbers (filepath : string) (pre : list (list string))
    (row : list string) (rest : reader) (st : state) :
  ((forall r, In r pre -> skipped r = true) ->
   validate_rows filepath 0 (rows_then pre StopIteration) st = Completed st)
  /\ (forall st1,
        validate_rows filepath 0 (rows_then pre StopIteration) st = Completed st1 ->
        validate_rows filepath 0 (rows_then pre (Next row rest)) st =
          match validate_row filepath (length pre + 1) row st1 with
          | Completed st2 => validate_rows filepath (S (length pre)) rest st2
          | Raised e st2 => Raised e st2
          end).
Proof.
  split.
  - generalize 0 as i. induction pre as [|r pre IH]; intros i K; [reflexivity|].
    simpl. unfold validate_row at 1. rewrite (K r (or_introl eq_refl)).
    apply IH. intros r' I. apply K. now right.
  - intros st1 P. rewrite validate_rows_rows_then, P. reflexivity.
Qed.

Lemma X10_line_numbers_witness :
  let pre := [["# prefix,country"]; []; [" #"; "a"; "b"; "c"; "d"; "e"]] in
  validate_rows "feed.csv" 0
    (rows_then pre (Next ["2a0f:1cc0::/32"; "us"] StopIteration)) initial_state =
  Completed (set_failed (print (msg_country_code "feed.csv" 4 "us") initial_state)).
Proof.
  intros pre.
  destruct (X10_line_numbers "feed.csv" pre ["2a0f:1cc0::/32"; "us"]
              StopIteration initial_state) as [A B].
  rewrite (B initial_state).
  - vm_compute. reflexivity.
  - apply A. intros r [<-|[<-|[<-|[]]]]; reflexivity.
Defined.

(** ** The networks [ip_network] accepts *)

Lemma make_netmask_result v arg m p :
  make_netmask v arg = Return (m, p) ->
  (p <= ipaddress._max_prefixlen v)%N
  /\ m = mk_address v (ipaddress._ip_int_from_prefix v p) None.
Proof.
  assert (A : forall n a, ipaddress.address_of_int v n = Return a ->
                          a = mk_address v n None).
  { intros n a. unfold ipaddress.address_of_int.
    destruct (_ <? _)%N; [discriminate|]. now intros [= <-]. }
  assert (P : forall w s q, ipaddress._prefix_from_prefix_string w s = Return q ->
                            (q <= ipaddress._max_prefixlen w)%N).
  { intros w s q. unfold ipaddress._prefix_from_prefix_string.
    destruct (negb _); [discriminate|].
    destruct (int s 10) as [n|]; [|discriminate].
    destruct (n <=? ipaddress._max_prefixlen w)%N eqn:L; [|discriminate].
    simpl. intros [= <-]. now apply N.leb_le. }
  assert (I : forall w n q, ipaddress._prefix_from_ip_int w n = Return q ->
                            (q <= ipaddress._max_prefixlen w)%N).
  { intros w n q. unfold ipaddress._prefix_from_ip_int.
    destruct (negb _); [discriminate|]. intros [= <-]. apply N.le_sub_l. }
  assert (Q : forall (c : result N) k,
            (forall q, c = Return q -> (q <= ipaddress._max_prefixlen v)%N) ->
            (q <- c ;; (netmask <- ipaddress.address_of_int v (k q) ;; Return (netmask, q)))
              = Return (m, p) ->
            (p <= ipaddress._max_prefixlen v)%N /\ m = mk_address v (k p) None).
  { intros c k H. destruct c as [q|e]; [|discriminate]. simpl.
    destruct (ipaddress.address_of_int v (k q)) as [a|e] eqn:E; [|discriminate].
    simpl. intros [= <- <-]. split; [now apply H|now apply A]. }
  destruct v; simpl;
    [unfold ipaddress._make_netmask_v4|unfold ipaddress._make_netmask_v6];
    apply (Q _ (fun q => ipaddress._ip_int_from_prefix _ q)); intros q;
    destruct arg as [n|s].
  - destruct (n <=? _)%N eqn:L; [|discriminate]. simpl.
    intros H; inversion H; subst. now apply N.leb_le.
  - unfold try_except.
    destruct (ipaddress._prefix_from_prefix_string V4 s) as [q'|e] eqn:E.
    + intros H; inversion H; subst. exact (P V4 _ _ E).
    + destruct (existsb _ _); [|discriminate].
      unfold ipaddress._prefix_from_ip_string.
      destruct (try_except (ipaddress._ip_int_from_string_v4 s) _ _) as [n|e'];
        [|discriminate].
      simpl. unfold try_except.
      destruct (ipaddress._prefix_from_ip_int V4 n) as [q1|e1] eqn:E1.
      * intros H; inversion H; subst. exact (I V4 _ _ E1).
      * destruct (existsb _ _); [|discriminate].
        destruct (ipaddress._prefix_from_ip_int V4 (N.lxor n _)) as [q2|e2] eqn:E2.
        -- intros H; inversion H; subst. exact (I V4 _ _ E2).
        -- destruct (existsb _ _); discriminate.
  - destruct (n <=? _)%N eqn:L; [|discriminate]. simpl.
    intros H; inversion H; subst. now apply N.leb_le.
  - exact (P V6 s q).
Qed.

Lemma parse_address_version v s a :
  parse_address v s = Return a -> addr_version a = v.
Proof.
  destruct v; simpl;
    [unfold ipaddress.IPv4Address|unfold ipaddress.IPv6Address].
  - destruct (contains _ _); [discriminate|].
    destruct (ipaddress._ip_int_from_string_v4 s); [|discriminate].
    simpl. now intros [= <-].
  - destruct (contains _ _); [discriminate|].
    destruct (ipaddress._split_scope_id s) as [[x y]|]; [|discriminate]. simpl.
    destruct (ipaddress._ip_int_from_string_v6 x); [|discriminate].
    simpl. now intros [= <-].
Qed.

(** What a strict network constructor returns. *)
Lemma strict_network_result v s net :
  match v with
  | V4 => ipaddress.IPv4Network s true
  | V6 => ipaddress.IPv6Network s true
  end = Return net ->
  exists addr mask,
    ipaddress._split_addr_prefix v s = Return (addr, mask)
    /\ parse_address v addr = Return (network_address net)
    /\ make_netmask v mask = Return (netmask net, _prefixlen net)
    /\ N.land (_ip (network_address net)) (_ip (netmask net)) = _ip (network_address net).
Proof.
  destruct v; [unfold ipaddress.IPv4Network|unfold ipaddress.IPv6Network];
    (destruct (ipaddress._split_addr_prefix _ s) as [[addr mask]|] eqn:S;
       [|discriminate]; simpl;
     match goal with
     | |- context [ipaddress.IPv4Address addr] =>
         destruct (ipaddress.IPv4Address addr) as [a|] eqn:A
     | |- context [ipaddress.IPv6Address addr] =>
         destruct (ipaddress.IPv6Address addr) as [a|] eqn:A
     end; [|discriminate]; simpl;
     match goal with
     | |- context [ipaddress._make_netmask_v4 mask] =>
         destruct (ipaddress._make_netmask_v4 mask) as [[m p]|] eqn:M
     | |- context [ipaddress._make_netmask_v6 mask] =>
         destruct (ipaddress._make_netmask_v6 mask) as [[m p]|] eqn:M
     end; [|discriminate]; simpl;
     destruct (N.land (_ip a) (_ip m) =? _ip a)%N eqn:L; simpl; [|discriminate];
     intros [= <-]; exists addr, mask; simpl;
     repeat split; try assumption; now apply N.eqb_eq).
Qed.

Lemma ip_network_result s net :
  ipaddress.ip_network s true = Return net ->
  match version net with
  | V4 => ipaddress.IPv4Network s true
  | V6 => ipaddress.IPv6Network s true
  end = Return net.
Proof.
  unfold ipaddress.ip_network, try_except.
  destruct (ipaddress.IPv4Network s true) as [n4|e4] eqn:E4.
  - intros [= <-].
    destruct (strict_network_result V4 s n4 E4) as [addr [mask [_ [A _]]]].
    unfold version. rewrite (parse_address_version V4 _ _ A). reflexivity.
  - destruct (existsb _ _); [|discriminate].
    destruct (ipaddress.IPv6Network s true) as [n6|e6] eqn:E6.
    + intros [= <-].
      destruct (strict_network_result V6 s n6 E6) as [addr [mask [_ [A _]]]].
      unfold version. rewrite (parse_address_version V6 _ _ A). reflexivity.
    + destruct (existsb _ _); discriminate.
Qed.

(** ** Addresses fit their width *)

Lemma lor_lt_pow2 a b k :
  (a < 2 ^ k -> b < 2 ^ k -> N.lor a b < 2 ^ k)%N.
Proof.
  intros A B.
  destruct (N.eq_dec a 0) as [->|Na]; [now rewrite N.lor_0_l|].
  destruct (N.eq_dec b 0) as [->|Nb]; [now rewrite N.lor_0_r|].
  assert (L : (0 < N.lor a b)%N).
  { apply N.neq_0_lt_0. intros Z. apply N.lor_eq_0_l in Z. contradiction. }
  apply (N.log2_lt_pow2 _ _ L). rewrite N.log2_lor.
  apply N.max_lub_lt; apply N.log2_lt_pow2; try assumption; now apply N.neq_0_lt_0.
Qed.

Lemma shiftl_lt_pow2 a k j : (a < 2 ^ k -> N.shiftl a j < 2 ^ (k + j))%N.
Proof.
  intros A. rewrite N.shiftl_mul_pow2, N.pow_add_r.
  apply N.mul_lt_mono_pos_r; [|exact A].
  apply N.neq_0_lt_0, N.pow_nonzero. discriminate.
Qed.

Lemma digit_value_bound c d base :
  digit_value c = Some d -> (d <? base)%N = true -> (d < base)%N.
Proof. intros _ H. now apply N.ltb_lt. Qed.

Lemma int_digits_bound base s :
  forall acc j n,
    (0 < base)%N ->
    (acc < base ^ j)%N ->
    int_digits base acc s = Some n ->
    (n < base ^ (j + N.of_nat (String.length s)))%N.
Proof.
  induction s as [|c r IH]; intros acc j n B A; simpl.
  - intros [= <-]. now rewrite N.add_0_r.
  - destruct (digit_value c) as [d|]; [|discriminate].
    destruct (d <? base)%N eqn:D; [|discriminate].
    apply N.ltb_lt in D. intros H.
    apply (IH _ (j + 1)%N) in H; [|exact B|].
    + match goal with
      | |- (_ < _ ^ ?e)%N =>
          replace e with (j + 1 + N.of_nat (String.length r))%N by lia
      end.
      exact H.
    + rewrite N.pow_add_r, N.pow_1_r. nia.
Qed.

Lemma int_bound base s n :
  (1 < base)%N -> int s base = Some n -> (n < base ^ N.of_nat (String.length s))%N.
Proof.
  intros B. unfold int. destruct s as [|c r] eqn:S; [discriminate|].
  rewrite <- S. destruct (_ && _); [discriminate|]. intros H.
  apply (int_digits_bound base _ 0 0%N) in H.
  - now rewrite N.add_0_l in H.
  - lia.
  - rewrite N.pow_0_r. lia.
Qed.

Lemma parse_hextet_bound p h :
  ipaddress._parse_hextet p = Return h -> (h < 2 ^ 16)%N.
Proof.
  unfold ipaddress._parse_hextet.
  destruct (negb _); [discriminate|].
  destruct (4 <? String.length p)%nat eqn:L; [discriminate|].
  apply Nat.ltb_ge in L.
  destruct (int p 16) as [n|] eqn:E; [|discriminate].
  intros [= <-].
  apply int_bound in E; [|reflexivity].
  eapply N.lt_le_trans; [exact E|].
  change (2 ^ 16)%N with (16 ^ 4)%N.
  apply N.pow_le_mono_r; [discriminate|lia].
Qed.

Lemma parse_hextets_bound ps :
  forall acc k n,
    (acc < 2 ^ k)%N ->
    ipaddress.parse_hextets ps acc = Return n ->
    (n < 2 ^ (k + 16 * N.of_nat (length ps)))%N.
Proof.
  induction ps as [|p ps IH]; intros acc k n A; simpl.
  - intros [= <-]. simpl. now rewrite N.add_0_r.
  - destruct (ipaddress._parse_hextet p) as [h|] eqn:H; [|discriminate]. simpl.
    intros E. apply (IH _ (k + 16)%N) in E.
    + match goal with
      | |- (_ < _ ^ ?e)%N =>
          replace e with (k + 16 + 16 * N.of_nat (length ps))%N by lia
      end.
      exact E.
    + apply lor_lt_pow2; [now apply shiftl_lt_pow2|].
      eapply N.lt_le_trans; [eapply parse_hextet_bound; eassumption|].
      apply N.pow_le_mono_r; [discriminate|lia].
Qed.

Lemma split_parts_sum ip_str parts skip hi lo skipped :
  ipaddress.split_parts ip_str parts skip = Return (hi, lo, skipped) ->
  hi + lo + skipped = 8.
Proof.
  unfold ipaddress.split_parts, ipaddress.leading_colon, ipaddress.trailing_colon,
    ipaddress._HEXTET_COUNT, raise.
  destruct skip as [i|].
  - repeat match goal with
           | |- context [if ?b then _ else _] =>
               destruct b eqn:?; cbv beta iota delta [bind]
           end; try discriminate;
      intros H; inversion H; subst; clear H;
      repeat match goal with
             | E : (_ <? _)%nat = false |- _ => apply Nat.ltb_ge in E
             end;
      match goal with
      | E : ?a + 1 <= 8 |- _ =>
          remember a as x; clear - E;
          do 8 (destruct x as [|x]; [reflexivity|]); lia
      end.
  - destruct (negb (length parts =? 8)%nat) eqn:L; [discriminate|].
    apply negb_false_iff, Nat.eqb_eq in L.
    destruct (negb _); [discriminate|]. destruct (negb _); [discriminate|].
    intros [= <- <- <-]. lia.
Qed.

Lemma ip_int_from_string_v6_bound s ip :
  ipaddress._ip_int_from_string_v6 s = Return ip -> (ip < 2 ^ 128)%N.
Proof.
  unfold ipaddress._ip_int_from_string_v6.
  destruct (negb (truthy s)); [discriminate|].
  destruct (_ <? _)%nat; [discriminate|].
  match goal with
  | |- bind ?c _ = _ -> _ => destruct c as [parts|]; [|discriminate]
  end. simpl.
  destruct (_ <? _)%nat; [discriminate|].
  destruct (ipaddress.find_skip_index _ _ _ _) as [skip|]; [|discriminate]. simpl.
  destruct (ipaddress.split_parts s parts skip) as [[[hi lo] skipped]|] eqn:P;
    [|discriminate]. simpl.
  apply split_parts_sum in P.
  unfold try_except.
  destruct (ipaddress.parse_hextets (firstn hi parts) 0) as [n1|e1] eqn:E1; simpl.
  2:{ match goal with
      | |- (if ?b then _ else _) = _ -> _ => destruct b; discriminate
      end. }
  destruct (ipaddress.parse_hextets (skipn _ parts) _) as [n2|e2] eqn:E2.
  2:{ match goal with
      | |- (if ?b then _ else _) = _ -> _ => destruct b; discriminate
      end. }
  intros [= <-].
  apply (parse_hextets_bound _ _ 0%N) in E1; [|reflexivity].
  apply (shiftl_lt_pow2 _ _ (16 * N.of_nat skipped)) in E1.
  apply (parse_hextets_bound _ _ _ _ E1) in E2.
  eapply N.lt_le_trans; [exact E2|].
  apply (N.pow_le_mono_r 2 _ 128); [discriminate|].
  pose proof (length_firstn hi parts) as F. pose proof (length_skipn (length parts - lo) parts) as K.
  lia.
Qed.

Lemma parse_octet_bound o b :
  ipaddress._parse_octet o = Return b -> (b < 2 ^ 8)%N.
Proof.
  unfold ipaddress._parse_octet.
  repeat match goal with
         | |- (if ?c then _ else _) = _ -> _ => destruct c eqn:?
         end; try discriminate.
  destruct (int o 10) as [n|]; [|discriminate].
  destruct (255 <? n)%N eqn:L; [discriminate|].
  intros [= <-]. apply N.ltb_ge in L. change (2 ^ 8)%N with 256%N. lia.
Qed.

Lemma from_octets_bound octets :
  forall acc k n,
    (acc < 2 ^ k)%N ->
    ipaddress.from_octets octets acc = Return n ->
    (n < 2 ^ (k + 8 * N.of_nat (length octets)))%N.
Proof.
  induction octets as [|o os IH]; intros acc k n A; simpl.
  - intros [= <-]. simpl. now rewrite N.add_0_r.
  - destruct (ipaddress._parse_octet o) as [b|] eqn:B; [|discriminate]. simpl.
    intros E. apply (IH _ (k + 8)%N) in E.
    + match goal with
      | |- (_ < _ ^ ?e)%N =>
          replace e with (k + 8 + 8 * N.of_nat (length os))%N by lia
      end.
      exact E.
    + apply parse_octet_bound in B. rewrite N.pow_add_r.
      change (2 ^ 8)%N with 256%N in *. nia.
Qed.

Lemma parse_address_bound v s a :
  parse_address v s = Return a -> (_ip a < 2 ^ ipaddress._max_prefixlen v)%N.
Proof.
  destruct v; simpl;
    [unfold ipaddress.IPv4Address|unfold ipaddress.IPv6Address].
  - destruct (contains _ _); [discriminate|].
    destruct (ipaddress._ip_int_from_string_v4 s) as [ip|] eqn:E; [|discriminate].
    simpl. intros [= <-]. simpl.
    unfold ipaddress._ip_int_from_string_v4 in E.
    destruct (negb (truthy s)); [discriminate|].
    destruct (negb (length (split "." s) =? 4)%nat) eqn:L; [discriminate|].
    apply negb_false_iff, Nat.eqb_eq in L.
    unfold try_except in E.
    destruct (ipaddress.from_octets (split "." s) 0) as [n|e] eqn:F.
    + injection E as <-.
      apply (from_octets_bound _ _ 0%N) in F; [|reflexivity].
      rewrite L in F. exact F.
    + destruct (existsb _ _); discriminate.
  - destruct (contains _ _); [discriminate|].
    destruct (ipaddress._split_scope_id s) as [[x y]|]; [|discriminate]. simpl.
    destruct (ipaddress._ip_int_from_string_v6 x) as [ip|] eqn:E; [|discriminate].
    simpl. intros [= <-]. simpl.
    eapply ip_int_from_string_v6_bound; eassumption.
Qed.

(** ** Masks as numbers *)

Lemma all_ones_ones v : ipaddress._ALL_ONES v = N.ones (ipaddress._max_prefixlen v).
Proof. destruct v; reflexivity. Qed.

Lemma shiftr_ones w p : (p <= w)%N -> N.shiftr (N.ones w) p = N.ones (w - p).
Proof.
  intros L. rewrite N.shiftr_div_pow2. now apply N.ones_div_pow2.
Qed.

(** The host mask of a prefix length: the low [w - p] bits. *)
Lemma hostmask_of_prefix v p :
  (p <= ipaddress._max_prefixlen v)%N ->
  N.lxor (ipaddress._ip_int_from_prefix v p) (ipaddress._ALL_ONES v)
  = N.ones (ipaddress._max_prefixlen v - p).
Proof.
  intros L. unfold ipaddress._ip_int_from_prefix.
  rewrite N.lxor_comm, <- N.lxor_assoc, N.lxor_nilpotent, N.lxor_0_l.
  rewrite all_ones_ones. now apply shiftr_ones.
Qed.

Lemma strict_low_bits v p ip :
  (p <= ipaddress._max_prefixlen v)%N ->
  N.land ip (ipaddress._ip_int_from_prefix v p) = ip ->
  N.land ip (N.ones (ipaddress._max_prefixlen v - p)) = 0%N.
Proof.
  intros L S. apply N.bits_inj_0. intros i.
  rewrite N.land_spec.
  destruct (N.lt_ge_cases i (ipaddress._max_prefixlen v - p)) as [Lt|Ge].
  - rewrite <- S, N.land_spec. unfold ipaddress._ip_int_from_prefix.
    rewrite N.lxor_spec, all_ones_ones, shiftr_ones by exact L.
    rewrite (N.ones_spec_low _ i) by lia.
    rewrite (N.ones_spec_low _ i) by exact Lt.
    simpl. now rewrite !andb_false_r.
  - rewrite (N.ones_spec_high _ i) by exact Ge. apply andb_false_r.
Qed.

Lemma lor_disjoint a b : N.land a b = 0%N -> N.lor a b = (a + b)%N.
Proof.
  intros D. rewrite <- (N.lxor_lor _ _ D). symmetry. now apply N.add_nocarry_lxor.
Qed.

Lemma ones_value n : N.ones n = (2 ^ n - 1)%N.
Proof. rewrite N.ones_equiv. apply N.pred_sub. Qed.

Lemma pow2_pos n : (0 < 2 ^ n)%N.
Proof. apply N.neq_0_lt_0, N.pow_nonzero. discriminate. Qed.

(** A multiple of the block size below [2 ^ w] leaves room for its block. *)
Lemma block_fits w h ip :
  (h <= w)%N -> (ip < 2 ^ w)%N -> (ip mod 2 ^ h = 0)%N ->
  (ip + (2 ^ h - 1) < 2 ^ w)%N.
Proof.
  intros L B M.
  pose proof (pow2_pos h) as Ph.
  assert (E : (2 ^ w = 2 ^ (w - h) * 2 ^ h)%N).
  { rewrite <- N.pow_add_r. f_equal. lia. }
  pose proof (N.div_mod ip (2 ^ h)) as D.
  rewrite M, N.add_0_r in D. specialize (D ltac:(lia)).
  set (q := (ip / 2 ^ h)%N) in *.
  assert (Q : (q < 2 ^ (w - h))%N) by nia.
  nia.
Qed.

Lemma accepted_network s net :
  ipaddress.ip_network s true = Return net ->
  (_ip (network_address net) < 2 ^ ipaddress._max_prefixlen (version net))%N
  /\ (_prefixlen net <= ipaddress._max_prefixlen (version net))%N
  /\ netmask net =
       mk_address (version net)
         (ipaddress._ip_int_from_prefix (version net) (_prefixlen net)) None
  /\ N.land (_ip (network_address net)) (_ip (netmask net)) = _ip (network_address net)
  /\ (_ip (network_address net) mod block_size net = 0)%N.
Proof.
  intros I.
  destruct (strict_network_result (version net) s net (ip_network_result s net I))
    as [addr [mask [_ [A [M S]]]]].
  destruct (make_netmask_result _ _ _ _ M) as [P N].
  split; [eapply parse_address_bound; eassumption|].
  split; [exact P|]. split; [exact N|]. split; [exact S|].
  unfold block_size. rewrite <- N.land_ones.
  apply strict_low_bits; [exact P|]. rewrite N in S. exact S.
Qed.

(** X11. A network that [ip_network] accepts is well formed: its address
    fits the width of its version (32 or 128 bits), its prefix length is
    at most that width, its netmask is the mask of that prefix length,
    and the address has no bit set outside the mask: it is a multiple of
    the size of its block. *)
Theorem X11_accepted_network_well_formed (s : string) (net : BaseNetwork) :
  ipaddress.ip_network s true = Return net ->
  let v := version net in
  (_ip (network_address net) < 2 ^ ipaddress._max_prefixlen v)%N
  /\ (_prefixlen net <= ipaddress._max_prefixlen v)%N
  /\ netmask net = mk_address v (ipaddress._ip_int_from_prefix v (_prefixlen net)) None
  /\ N.land (_ip (network_address net)) (_ip (netmask net)) = _ip (network_address net)
  /\ (_ip (network_address net) mod block_size net = 0)%N.
Proof. intros I. simpl. exact (accepted_network s net I). Qed.

Lemma X11_accepted_network_well_formed_witness :
  let net := mk_network (mk_address V6 55906043395120594061912542460187246592 None)
               (mk_address V6 340282366841710300949110269838224261120 None) 32 in
  (_ip (network_address net) < 2 ^ 128)%N
  /\ (_prefixlen net <= 128)%N
  /\ netmask net = mk_address V6 (ipaddress._ip_int_from_prefix V6 32) None
  /\ N.land (_ip (network_address net)) (_ip (netmask net)) = _ip (network_address net)
  /\ (_ip (network_address net) mod block_size net = 0)%N.
Proof.
  intros net.
  apply (X11_accepted_network_well_formed "2a0f:1cc0::/32" net).
  vm_compute. reflexivity.
Defined.

(** ** The containment check as arithmetic *)

Lemma supernet_broadcast :
  ipaddress.broadcast_address SUPERNET = Return (mk_address V6 supernet_last None).
Proof. vm_compute. reflexivity. Qed.

Lemma broadcast_of_accepted s net :
  ipaddress.ip_network s true = Return net ->
  ipaddress.broadcast_address net =
    Return (mk_address (version net)
              (_ip (network_address net) + (block_size net - 1)) None).
Proof.
  intros I. destruct (accepted_network _ _ I) as [B [P [M [S Z]]]].
  unfold ipaddress.broadcast_address, ipaddress.hostmask.
  rewrite M. cbn [_ip]. rewrite (hostmask_of_prefix _ _ P).
  set (w := ipaddress._max_prefixlen (version net)) in *.
  set (h := (w - _prefixlen net)%N).
  assert (H : (h <= w)%N) by (unfold h; lia).
  pose proof (pow2_pos h) as Ph.
  assert (Hw : (2 ^ h <= 2 ^ w)%N) by (apply N.pow_le_mono_r; [discriminate|exact H]).
  unfold ipaddress.address_of_int. fold w. rewrite all_ones_ones. fold w.
  rewrite !ones_value.
  replace (2 ^ w - 1 <? 2 ^ h - 1)%N with false by (symmetry; apply N.ltb_ge; lia).
  cbn [bind _ip].
  rewrite lor_disjoint.
  2:{ rewrite <- ones_value. unfold h, w. apply strict_low_bits; [exact P|].
      rewrite M in S. exact S. }
  unfold block_size in *. fold w in Z. fold h in Z. fold w. fold h.
  pose proof (block_fits w h _ H B Z) as F.
  replace (2 ^ w - 1 <? _)%N with false by (symmetry; apply N.ltb_ge; lia).
  reflexivity.
Qed.

Lemma subnet_of_supernet s net :
  ipaddress.ip_network s true = Return net ->
  version net = V6 ->
  ipaddress.subnet_of net SUPERNET =
    Return (((supernet_first <? _ip (network_address net))%N
             || ((supernet_first =? _ip (network_address net))%N
                 && unscoped (network_address net)))
            && (_ip (network_address net) + (block_size net - 1) <=? supernet_last)%N).
Proof.
  intros I V.
  pose proof (broadcast_of_accepted _ _ I) as B. rewrite V in B.
  unfold ipaddress.subnet_of, ipaddress._is_subnet_of.
  rewrite V. change (version SUPERNET) with V6. cbn [ipaddress.version_eqb negb].
  rewrite supernet_broadcast, B.
  unfold ipaddress.address_le, ipaddress.address_ge, ipaddress.address_lt,
    ipaddress.address_eq, unscoped.
  unfold version in V. rewrite V.
  change (addr_version (network_address SUPERNET)) with V6.
  change (_ip (network_address SUPERNET)) with supernet_first.
  change (_scope_id (network_address SUPERNET)) with (@None string).
  cbn [ipaddress.version_eqb negb addr_version _ip bind].
  set (ip := _ip (network_address net)).
  set (last := (ip + (block_size net - 1))%N).
  destruct (N.eqb_spec supernet_first ip) as [E|E]; cbn [negb bind andb orb].
  - rewrite (proj2 (N.ltb_ge supernet_first ip)) by lia. cbn [orb].
    destruct (_scope_id (network_address net)); cbn [ipaddress.scope_eqb bind].
    + reflexivity.
    + destruct (N.eqb_spec supernet_last last) as [F|F]; cbn [negb bind].
      * rewrite (proj2 (N.leb_le last supernet_last)) by lia. reflexivity.
      * destruct (N.ltb_spec supernet_last last) as [G|G]; cbn [negb].
        -- rewrite (proj2 (N.leb_gt last supernet_last)) by lia. reflexivity.
        -- rewrite (proj2 (N.leb_le last supernet_last)) by lia. reflexivity.
  - rewrite !orb_false_r.
    destruct (N.ltb_spec supernet_first ip) as [L|L]; cbn [bind andb].
    + destruct (N.eqb_spec supernet_last last) as [F|F]; cbn [negb bind].
      * rewrite (proj2 (N.leb_le last supernet_last)) by lia. reflexivity.
      * destruct (N.ltb_spec supernet_last last) as [G|G]; cbn [negb].
        -- rewrite (proj2 (N.leb_gt last supernet_last)) by lia. reflexivity.
        -- rewrite (proj2 (N.leb_le last supernet_last)) by lia. reflexivity.
    + reflexivity.
Qed.

Lemma supernet_first_value : supernet_first = (88204184 * 2 ^ 99)%N.
Proof. vm_compute. reflexivity. Qed.

(** A block inside the range of [SUPERNET], numerically and by its bits. *)
Lemma inside_supernet_iff ip p :
  (p <= 128)%N -> (ip < 2 ^ 128)%N -> (ip mod 2 ^ (128 - p) = 0)%N ->
  ((supernet_first <= ip /\ ip + (2 ^ (128 - p) - 1) <= supernet_last)%N
   <-> (29 <= p)%N /\ N.shiftr ip 99 = N.shiftr supernet_first 99).
Proof.
  intros P B M.
  rewrite !N.shiftr_div_pow2. unfold supernet_last. rewrite supernet_first_value.
  rewrite N.div_mul by (apply N.pow_nonzero; discriminate).
  set (h := (128 - p)%N) in *.
  pose proof (pow2_pos h) as Ph. pose proof (pow2_pos 99) as P99.
  pose proof (N.div_mod ip (2 ^ 99) ltac:(lia)) as D.
  pose proof (N.mod_lt ip (2 ^ 99) ltac:(lia)) as R.
  split.
  - intros [Lo Hi].
    assert (H : (h <= 99)%N).
    { apply (N.pow_le_mono_r_iff 2); [reflexivity|]. lia. }
    split; [unfold h in H; lia|].
    symmetry. apply (N.div_unique ip (2 ^ 99) 88204184 (ip - 88204184 * 2 ^ 99)); lia.
  - intros [L Q]. rewrite Q in D.
    assert (H : (h <= 99)%N) by (unfold h; lia).
    assert (E : (2 ^ 99 = 2 ^ (99 - h) * 2 ^ h)%N).
    { rewrite <- N.pow_add_r. f_equal. lia. }
    pose proof (N.div_mod ip (2 ^ h) ltac:(lia)) as Dh.
    rewrite M, N.add_0_r in Dh.
    clear Q M B.
    set (q := (ip / 2 ^ h)%N) in *. set (a := (2 ^ h)%N) in *.
    set (c := (2 ^ (99 - h))%N) in *. set (r := (ip mod 2 ^ 99)%N) in *.
    set (t := (2 ^ 99)%N) in *.
    clearbody q a c r t. clear h H P Ph.
    split; [lia|].
    assert (U : (ip < (88204184 + 1) * c * a)%N) by (rewrite <- N.mul_assoc, <- E; lia).
    assert (Qb : (q < (88204184 + 1) * c)%N).
    { destruct (N.lt_ge_cases q ((88204184 + 1) * c)) as [Y|Y]; [exact Y|].
      exfalso. apply (N.mul_le_mono_r _ _ a) in Y. lia. }
    assert (S : ((q + 1) * a <= (88204184 + 1) * c * a)%N).
    { apply N.mul_le_mono_r. lia. }
    rewrite <- N.mul_assoc, <- E in S. lia.
Qed.

(** X12. The containment check in numbers.  For an IPv6 prefix that
    [ip_network] accepts, [subnet_of] against [SUPERNET] returns, and it
    returns true exactly when the prefix length is at least 29 and the
    first 29 bits of the address are those of [2a0f:1cc0::], that is when
    the block lies between [2a0f:1cc0::] and
    [2a0f:1cc7:ffff:ffff:ffff:ffff:ffff:ffff]; with one exception: a
    prefix whose address is [2a0f:1cc0::] itself and carries a scope id
    is found outside. *)
Theorem X12_containment_in_numbers (s : string) (net : BaseNetwork) :
  ipaddress.ip_network s true = Return net ->
  version net = V6 ->
  exists within,
    ipaddress.subnet_of net SUPERNET = Return within
    /\ (within = true <->
        (29 <= _prefixlen net)%N
        /\ N.shiftr (_ip (network_address net)) 99 = N.shiftr supernet_first 99
        /\ (_ip (network_address net) = supernet_first ->
            unscoped (network_address net) = true))
    /\ (within = true ->
        (supernet_first <= _ip (network_address net))%N
        /\ (_ip (network_address net) + (block_size net - 1) <= supernet_last)%N).
Proof.
  intros I V. rewrite (subnet_of_supernet _ _ I V).
  eexists. split; [reflexivity|].
  destruct (accepted_network _ _ I) as [B [P [_ [_ Z]]]].
  unfold block_size in *. rewrite V in *. cbn [ipaddress._max_prefixlen] in *.
  change ipaddress.IPV6LENGTH with 128%N in *.
  pose proof (inside_supernet_iff _ _ P B Z) as A.
  set (ip := _ip (network_address net)) in *.
  set (size := (2 ^ (128 - _prefixlen net))%N) in *.
  rewrite andb_true_iff, orb_true_iff, andb_true_iff, N.ltb_lt, N.eqb_eq, N.leb_le.
  split; [split|].
  - intros [Lo Hi].
    assert (A1 : (supernet_first <= ip)%N) by (destruct Lo as [Lo|[Lo _]]; lia).
    destruct (proj1 A (conj A1 Hi)) as [L Q].
    split; [exact L|]. split; [exact Q|].
    intros E. destruct Lo as [Lo|[_ Lo]]; [lia|exact Lo].
  - intros [L [Q U]]. destruct (proj2 A (conj L Q)) as [Lo Hi].
    split; [|exact Hi].
    destruct (N.eq_dec ip supernet_first) as [E|E].
    + right. split; [now symmetry|now apply U].
    + left. lia.
  - intros [Lo Hi]. split; [destruct Lo as [Lo|[Lo _]]; lia|exact Hi].
Qed.

Lemma X12_containment_in_numbers_witness :
  let net := mk_network (mk_address V6 55906043395120594061912542460187246592 None)
               (mk_address V6 340282365653287863235145205935065006080 None) 28 in
  exists within,
    ipaddress.subnet_of net SUPERNET = Return within
    /\ (within = true <->
        (29 <= _prefixlen net)%N
        /\ N.shiftr (_ip (network_address net)) 99 = N.shiftr supernet_first 99
        /\ (_ip (network_address net) = supernet_first ->
            unscoped (network_address net) = true))
    /\ (within = true ->
        (supernet_first <= _ip (network_address net))%N
        /\ (_ip (network_address net) + (block_size net - 1) <= supernet_last)%N).
Proof.
  intros net.
  apply (X12_containment_in_numbers "2a0f:1cc0::/28" net).
  - vm_compute. reflexivity.
  - reflexivity.
Defined.
